(** * 3PU_pytorch, [operations.py]: batched point-cloud primitives

    A shallow embedding of [src/operations.py]: normalisation of a point
    batch ([normalize_point_batch]), nearest-neighbour grouping
    ([search_index_pytorch], [KNN], [group_knn]), indexed gather with its
    backward rule ([GatherFunction]) and furthest-point sampling
    ([FurthestPointSampling], [furthest_point_sample]).

    Tensors are contiguous row-major views of a flat storage, as torch has
    them: a storage, a storage offset and a size.  A Python call returns
    [Ok] with its value or [Raise] with its exception.  The compiled kernels
    of the [sampling] extension are not part of the Python file; they are
    modelled from the specification and marked as such.  The faiss index is
    an external library and is a parameter of the development. *)

From Stdlib Require Import ZArith Lia String.
From Stdlib Require Import Floats.SpecFloat.
From stdpp Require Import base option list.

Local Open Scope string_scope.
Local Open Scope nat_scope.
Local Open Scope list_scope.

(** ** Exceptions and fallible computations *)

(** The Python exceptions the file can raise, and the four errors the
    specification names for the compiled kernels. *)
Inductive exn : Type :=
  | AssertionError (msg : string)
  | ValueError (msg : string)
  | IndexError (msg : string)
  | RuntimeError (msg : string)
  | AttributeError (msg : string)
  | InsufficientPointsError
  | IndexOutOfRangeError
  | ShapeMismatchError
  | InvalidShapeError.

Inductive result (A : Type) : Type :=
  | Ok (a : A)
  | Raise (e : exn).
Arguments Ok {A} a.
Arguments Raise {A} e.

Definition rbind {A B : Type} (m : result A) (k : A -> result B) : result B :=
  match m with
  | Ok a => k a
  | Raise e => Raise e
  end.

Notation "'do' x <- m ; k" := (rbind m (fun x => k))
  (at level 10, x binder, m at level 100, k at level 200).
Notation "'do' ' p <- m ; k" := (rbind m (fun x => match x with p => k end))
  (at level 10, p pattern, m at level 100, k at level 200).

(** [assert cond, msg] *)
Definition assert (cond : bool) (msg : string) : result unit :=
  if cond then Ok tt else Raise (AssertionError msg).

Definition succeeds {A : Type} (m : result A) : Prop := exists a, m = Ok a.
Definition fails {A : Type} (m : result A) : Prop := exists e, m = Raise e.

(** A loop body run over a list of indices, stopping at the first raise. *)
Fixpoint rfold {A S : Type} (body : S -> A -> result S) (l : list A) (s : S)
  : result S :=
  match l with
  | [] => Ok s
  | a :: l' => do s' <- body s a; rfold body l' s'
  end.

Fixpoint rmap {A B : Type} (f : A -> result B) (l : list A) : result (list B) :=
  match l with
  | [] => Ok []
  | a :: l' => do b <- f a; do bs <- rmap f l'; Ok (b :: bs)
  end.

(** ** Tensors *)

Record tensor (A : Type) : Type := Tensor {
  storage : list A;
  storage_offset : nat;
  size : list nat
}.
Arguments Tensor {A} _ _ _.
Arguments storage {A} _.
Arguments storage_offset {A} _.
Arguments size {A} _.

Definition numel (sz : list nat) : nat := foldr Nat.mul 1 sz.

(** Linear position of a multi-index in a contiguous tensor of size [sz];
    [None] when the rank differs or a coordinate is out of range. *)
Fixpoint ravel (sz ix : list nat) : option nat :=
  match sz, ix with
  | [], [] => Some 0
  | d :: sz', i :: ix' =>
      if i <? d then
        match ravel sz' ix' with
        | Some k => Some (i * numel sz' + k)
        | None => None
        end
      else None
  | _, _ => None
  end.

(** All multi-indices of a tensor of size [sz], in row-major order. *)
Fixpoint indices (sz : list nat) : list (list nat) :=
  match sz with
  | [] => [[]]
  | d :: sz' => flat_map (fun i => map (cons i) (indices sz')) (seq 0 d)
  end.

Definition get {A : Type} (t : tensor A) (ix : list nat) : option A :=
  match ravel (size t) ix with
  | Some k => storage t !! (storage_offset t + k)
  | None => None
  end.

(** In-place write [t[ix] = v]. *)
Definition set {A : Type} (t : tensor A) (ix : list nat) (v : A) : option (tensor A) :=
  match ravel (size t) ix with
  | Some k => Some (Tensor (<[storage_offset t + k := v]> (storage t))
                           (storage_offset t) (size t))
  | None => None
  end.

(** A fresh contiguous tensor with the given elements. *)
Definition tabulate {A : Type} (sz : list nat) (f : list nat -> A) : tensor A :=
  Tensor (map f (indices sz)) 0 sz.

(** [torch.full(sz, v)] *)
Definition full {A : Type} (sz : list nat) (v : A) : tensor A :=
  tabulate sz (fun _ => v).

(** [t.dim()] and [t.size(i)] *)
Definition dim {A : Type} (t : tensor A) : nat := length (size t).

Definition size_at {A : Type} (t : tensor A) (i : nat) : result nat :=
  match size t !! i with
  | Some d => Ok d
  | None => Raise (IndexError "Dimension out of range")
  end.

(** [a, b, c = t.size()] *)
Definition size3 {A : Type} (t : tensor A) : result (nat * nat * nat) :=
  match size t with
  | [a; b; c] => Ok (a, b, c)
  | _ => Raise (ValueError "unpack")
  end.

Definition size2 {A : Type} (t : tensor A) : result (nat * nat) :=
  match size t with
  | [a; b] => Ok (a, b)
  | _ => Raise (ValueError "unpack")
  end.

(** A tensor whose storage holds its elements: what every allocation and
    every [.contiguous()] copy returns. *)
Definition well_formed {A : Type} (t : tensor A) : Prop :=
  storage_offset t + numel (size t) <= length (storage t).


(** Reading an element, as a fallible computation. *)
Definition getr {A : Type} (t : tensor A) (ix : list nat) : result A :=
  match get t ix with
  | Some a => Ok a
  | None => Raise (IndexError "index out of range")
  end.

(** A fresh contiguous tensor whose elements are computed one by one. *)
Definition tabulate_r {A : Type} (sz : list nat) (f : list nat -> result A)
  : result (tensor A) :=
  do st <- rmap f (indices sz); Ok (Tensor st 0 sz).

(** The elements a tensor denotes, in row-major order. *)
Definition elements {A : Type} (t : tensor A) : list A :=
  take (numel (size t)) (drop (storage_offset t) (storage t)).

(** [t[i]]: a view into the same storage. *)
Definition select {A : Type} (t : tensor A) (i : nat) : result (tensor A) :=
  match size t with
  | d :: sz' =>
      if i <? d
      then Ok (Tensor (storage t) (storage_offset t + i * numel sz') sz')
      else Raise (IndexError "index out of range")
  | [] => Raise (IndexError "invalid index of a 0-dim tensor")
  end.

(** [t.contiguous()]: every tensor of this model is contiguous already. *)
Definition contiguous {A : Type} (t : tensor A) : tensor A := t.

Definition is_contiguous {A : Type} (t : tensor A) : bool := true.

(** [t.transpose(2, 1).contiguous()] on a 3-d tensor. *)
Definition transpose21 {A : Type} (t : tensor A) : result (tensor A) :=
  match size t with
  | [a; b; c] =>
      tabulate_r [a; c; b]
        (fun ix => match ix with
                   | [i; j; k] => getr t [i; k; j]
                   | _ => Raise (IndexError "rank")
                   end)
  | _ => Raise (IndexError "Dimension out of range")
  end.

(** [t.permute(0, 3, 1, 2).contiguous()] on a 4-d tensor. *)
Definition permute0312 {A : Type} (t : tensor A) : result (tensor A) :=
  match size t with
  | [a; b; c; d] =>
      tabulate_r [a; d; b; c]
        (fun ix => match ix with
                   | [i; l; j; k] => getr t [i; j; k; l]
                   | _ => Raise (IndexError "rank")
                   end)
  | _ => Raise (RuntimeError "number of dims don't match in permute")
  end.

(** [t.unsqueeze(dim=1).expand((-1, m, -1, -1))] on a 3-d tensor,
    materialised. *)
Definition unsqueeze1_expand {A : Type} (t : tensor A) (m : nat) : result (tensor A) :=
  match size t with
  | [a; b; c] =>
      tabulate_r [a; m; b; c]
        (fun ix => match ix with
                   | [i; _; j; k] => getr t [i; j; k]
                   | _ => Raise (IndexError "rank")
                   end)
  | _ => Raise (RuntimeError "expand: rank")
  end.

(** [t.unsqueeze(dim=-1).expand((-1, -1, -1, c))] on a 3-d tensor,
    materialised. *)
Definition unsqueeze_last_expand {A : Type} (t : tensor A) (c : nat) : result (tensor A) :=
  match size t with
  | [a; b; k] =>
      tabulate_r [a; b; k; c]
        (fun ix => match ix with
                   | [i; j; l; _] => getr t [i; j; l]
                   | _ => Raise (IndexError "rank")
                   end)
  | _ => Raise (RuntimeError "expand: rank")
  end.

(** [torch.gather(input, 2, index)] on 4-d tensors:
    [out[i][j][l][c] = input[i][j][index[i][j][l][c]][c]]; the index may be
    smaller than the input on every axis but the gathered one.  An index
    without elements gives the empty result of its size, before any size is
    compared. *)
Definition torch_gather2 {A : Type} (input : tensor A) (index : tensor Z)
  : result (tensor A) :=
  match size input, size index with
  | [a0; a1; a2; a3], [b0; b1; b2; b3] =>
      if numel [b0; b1; b2; b3] =? 0 then Ok (Tensor [] 0 [b0; b1; b2; b3])
      else if (b0 <=? a0) && (b1 <=? a1) && (b3 <=? a3) then
        tabulate_r [b0; b1; b2; b3]
          (fun ix => match ix with
                     | [i; j; l; c] =>
                         do n <- getr index [i; j; l; c];
                         if ((0 <=? n) && (n <? Z.of_nat a2))%Z
                         then getr input [i; j; Z.to_nat n; c]
                         else Raise (RuntimeError "index out of bounds")
                     | _ => Raise (IndexError "rank")
                     end)
      else Raise (RuntimeError "size does not match at dimension")
  | _, _ => Raise (RuntimeError "index and input must have the same number of dimensions")
  end.

(** [torch.stack(ts, dim=0)] *)
Definition stack {A : Type} (ts : list (tensor A)) : result (tensor A) :=
  match ts with
  | [] => Raise (RuntimeError "stack expects a non-empty TensorList")
  | t :: _ =>
      if forallb (fun t' => bool_decide (size t' = size t)) ts
      then Ok (Tensor (concat (map elements ts)) 0 (length ts :: size t))
      else Raise (RuntimeError "stack expects each tensor to be equal size")
  end.

(** ** Element types *)

(** The arithmetic of a floating-point dtype. *)
Class Dtype (F : Type) : Type := {
  fzero : F;
  fone : F;
  fadd : F -> F -> F;
  fsub : F -> F -> F;
  fmul : F -> F -> F;
  fdiv : F -> F -> F;
  fsqrt : F -> F;
  fmax : F -> F -> F;
  fof_nat : nat -> F
}.

(** [torch.float32]: IEEE binary32, round to nearest even. *)
Definition f32 : Type := spec_float.
Definition prec32 : Z := 24.
Definition emax32 : Z := 128.
Definition f32_add : f32 -> f32 -> f32 := SFadd prec32 emax32.
Definition f32_sub : f32 -> f32 -> f32 := SFsub prec32 emax32.
Definition f32_mul : f32 -> f32 -> f32 := SFmul prec32 emax32.
Definition f32_div : f32 -> f32 -> f32 := SFdiv prec32 emax32.
Definition f32_sqrt : f32 -> f32 := SFsqrt prec32 emax32.
Definition f32_ltb : f32 -> f32 -> bool := SFltb.
Definition f32_leb : f32 -> f32 -> bool := SFleb.
Definition f32_of_Z (z : Z) : f32 := binary_normalize prec32 emax32 z 0 false.
Definition f32_inf : f32 := S754_infinity false.

(** The maximum of two values; NaN if either is. *)
Definition f32_max (a b : f32) : f32 :=
  match a, b with
  | S754_nan, _ | _, S754_nan => S754_nan
  | _, _ => if f32_ltb a b then b else a
  end.

#[export] Instance float32 : Dtype f32 := {
  fzero := S754_zero false;
  fone := f32_of_Z 1;
  fadd := f32_add;
  fsub := f32_sub;
  fmul := f32_mul;
  fdiv := f32_div;
  fsqrt := f32_sqrt;
  fmax := f32_max;
  fof_nat := fun n => f32_of_Z (Z.of_nat n)
}.

(** [torch.sum] and [torch.mean] over the values along an axis.  The
    library fixes neither the order in which it adds them nor how the mean
    rounds its division by their number: the two reductions are taken as
    the library computes them, and what is proved of the code is proved for
    every such pair. *)
Class Reduction (F : Type) : Type := {
  rsum : list F -> F;
  rmean : list F -> F
}.

(** Adding in index order and dividing the sum by the number of values:
    the reductions of the concrete runs below, whose axes hold two points
    and three coordinates. *)
#[export] Instance sequential {F : Type} `{Dtype F} : Reduction F := {
  rsum := fun l => foldl fadd fzero l;
  rmean := fun l => fdiv (foldl fadd fzero l) (fof_nat (length l))
}.

(** [torch.zeros(sz)] and [torch.ones(sz)] *)
Definition zeros {F : Type} `{Dtype F} (sz : list nat) : tensor F := full sz fzero.
Definition ones {F : Type} `{Dtype F} (sz : list nat) : tensor F := full sz fone.

(** ** Reductions, broadcasting and [normalize_point_batch] *)

(** A reduction of a 3-d tensor along axis 1 or 2 with [keepdim=True]:
    [f] is applied to the elements along the axis, in index order. *)
Definition reduce_keepdim {A B : Type} (f : list A -> result B) (t : tensor A)
  (axis : nat) : result (tensor B) :=
  match size t, axis with
  | [a; b; c], 1 =>
      tabulate_r [a; 1; c]
        (fun ix => match ix with
                   | [i; _; k] =>
                       do l <- rmap (fun j => getr t [i; j; k]) (seq 0 b); f l
                   | _ => Raise (IndexError "rank")
                   end)
  | [a; b; c], 2 =>
      tabulate_r [a; b; 1]
        (fun ix => match ix with
                   | [i; j; _] =>
                       do l <- rmap (fun k => getr t [i; j; k]) (seq 0 c); f l
                   | _ => Raise (IndexError "rank")
                   end)
  | _, _ => Raise (IndexError "Dimension out of range")
  end.

(** [torch.sum(t, dim=axis, keepdim=True)] *)
Definition torch_sum {F : Type} `{Reduction F} (t : tensor F) (axis : nat)
  : result (tensor F) :=
  reduce_keepdim (fun l => Ok (rsum l)) t axis.

(** [torch.mean(t, dim=axis, keepdim=True)] *)
Definition torch_mean {F : Type} `{Reduction F} (t : tensor F) (axis : nat)
  : result (tensor F) :=
  reduce_keepdim (fun l => Ok (rmean l)) t axis.

(** The values of [torch.max(t, dim=axis, keepdim=True)]; the indices that
    come with them are discarded by the caller. *)
Definition torch_max {F : Type} `{Dtype F} (t : tensor F) (axis : nat)
  : result (tensor F) :=
  reduce_keepdim
    (fun l => match l with
              | [] => Raise (IndexError "max(): Expected reduction dim to have non-zero size")
              | x :: l' => Ok (foldl fmax x l')
              end) t axis.

(** An element-wise operation. *)
Definition tmap {A B : Type} (f : A -> B) (t : tensor A) : result (tensor B) :=
  tabulate_r (size t) (fun ix => do x <- getr t ix; Ok (f x)).

(** The position in a tensor of size [sz] that a position of the larger
    tensor is broadcast from: 0 along the axes of size 1. *)
Definition broadcast_ix (sz ix : list nat) : list nat :=
  zip_with (fun d i => if d =? 1 then 0 else i) sz ix.

Definition broadcastable (sz1 sz2 : list nat) : bool :=
  (length sz1 =? length sz2)
  && forallb (fun dd => (snd dd =? 1) || (snd dd =? fst dd)) (zip sz1 sz2).

(** [t op u] where [u] is broadcast to the size of [t]. *)
Definition broadcast2 {A : Type} (op : A -> A -> A) (t u : tensor A)
  : result (tensor A) :=
  if broadcastable (size t) (size u) then
    tabulate_r (size t)
      (fun ix => do x <- getr t ix;
                 do y <- getr u (broadcast_ix (size u) ix);
                 Ok (op x y))
  else Raise (RuntimeError "The size of tensor a must match the size of tensor b").

(** [pc ** 2] is the product of each value with itself. *)
Definition normalize_point_batch {F : Type} `{Dtype F} `{Reduction F}
  (pc : tensor F) (NCHW : bool)
  : result (tensor F * tensor F * tensor F) :=
  let point_axis := if NCHW then 2 else 1 in
  let dim_axis := if NCHW then 1 else 2 in
  do centroid <- torch_mean pc point_axis;
  do pc <- broadcast2 fsub pc centroid;
  do squares <- tmap (fun x => fmul x x) pc;
  do sums <- torch_sum squares dim_axis;
  do norms <- tmap fsqrt sums;
  do furthest_distance <- torch_max norms point_axis;
  do pc <- broadcast2 fdiv pc furthest_distance;
  Ok (pc, centroid, furthest_distance).

(** ** The autograd context *)

Inductive any_tensor (F : Type) : Type :=
  | FloatTensor (t : tensor F)
  | LongTensor (t : tensor Z).
Arguments FloatTensor {F} t.
Arguments LongTensor {F} t.

Record context (F : Type) : Type := Context {
  saved_tensors : list (any_tensor F);
  ctx_C : option nat;
  ctx_N : option nat;
  non_differentiable : list (any_tensor F)
}.
Arguments Context {F} _ _ _ _.
Arguments saved_tensors {F} _.
Arguments ctx_C {F} _.
Arguments ctx_N {F} _.
Arguments non_differentiable {F} _.

Definition new_context {F : Type} : context F := Context [] None None [].

Definition save_for_backward {F : Type} (ctx : context F) (ts : list (any_tensor F))
  : context F :=
  Context ts (ctx_C ctx) (ctx_N ctx) (non_differentiable ctx).

Definition set_C {F : Type} (ctx : context F) (c : nat) : context F :=
  Context (saved_tensors ctx) (Some c) (ctx_N ctx) (non_differentiable ctx).

Definition set_N {F : Type} (ctx : context F) (n : nat) : context F :=
  Context (saved_tensors ctx) (ctx_C ctx) (Some n) (non_differentiable ctx).

Definition mark_non_differentiable {F : Type} (ctx : context F)
  (ts : list (any_tensor F)) : context F :=
  Context (saved_tensors ctx) (ctx_C ctx) (ctx_N ctx) ts.

Definition attr (o : option nat) (name : string) : result nat :=
  match o with
  | Some v => Ok v
  | None => Raise (AttributeError name)
  end.

(** ** GatherFunction *)

(** Modelled from the spec: an index outside [[0, N)] is an
    [IndexOutOfRangeError] (section 4.3, Errors). *)
Definition index_in_range (N : nat) (idx : tensor Z) (ix : list nat) : result unit :=
  match get idx ix with
  | Some n =>
      if ((0 <=? n) && (n <? Z.of_nat N))%Z then Ok tt
      else Raise IndexOutOfRangeError
  | None => Raise ShapeMismatchError
  end.

(** Modelled from the spec: the validation both [sampling] gather kernels
    share (section 4.3, Errors): every index must lie in [[0, N)], and an
    index tensor smaller than [(B, npoint)] is a shape mismatch. *)
Definition check_index_range (B npoint N : nat) (idx : tensor Z) : result unit :=
  rfold (fun _ ix => index_in_range N idx ix) (indices [B; npoint]) tt.

(** Modelled from the spec: the compiled kernel [sampling.gather_forward],
    absent from the Python source (section 4.3, Contract forward): for every
    batch element [b] and output position [j],
    [output[b,:,j] = features[b,:,index[b,j]]].  The uninitialised [output]
    argument is overwritten entirely and is not an input of the model. *)
Definition gather_forward {A : Type} (B C N npoint : nat)
  (features : tensor A) (idx : tensor Z) : result (tensor A) :=
  do _ <- check_index_range B npoint N idx;
  tabulate_r [B; C; npoint]
    (fun ix => match ix with
               | [b; c; j] =>
                   match get idx [b; j] with
                   | Some n =>
                       match get features [b; c; Z.to_nat n] with
                       | Some v => Ok v
                       | None => Raise ShapeMismatchError
                       end
                   | None => Raise ShapeMismatchError
                   end
               | _ => Raise ShapeMismatchError
               end).

(** Modelled from the spec: one accumulation of the backward kernel:
    [grad_features[b, c, index[b, j]] += grad_output[b, c, j]]. *)
Definition scatter_add_step {F : Type} `{Dtype F} (grad_out : tensor F)
  (idx : tensor Z) (gf : tensor F) (ix : list nat) : result (tensor F) :=
  match ix with
  | [b; j; c] =>
      match get idx [b; j], get grad_out [b; c; j] with
      | Some n, Some g =>
          match get gf [b; c; Z.to_nat n] with
          | Some old =>
              match set gf [b; c; Z.to_nat n] (fadd old g) with
              | Some gf' => Ok gf'
              | None => Raise ShapeMismatchError
              end
          | None => Raise ShapeMismatchError
          end
      | _, _ => Raise ShapeMismatchError
      end
  | _ => Raise ShapeMismatchError
  end.

(** Modelled from the spec: the compiled kernel [sampling.gather_backward],
    absent from the Python source (section 4.3, Contract backward): for every
    [(b, j)], [grad_output[b,:,j]] is added into
    [grad_features[b,:,index[b,j]]], in place, one position after the other. *)
Definition gather_backward {F : Type} `{Dtype F} (B C N npoint : nat)
  (grad_out : tensor F) (idx : tensor Z) (grad_features : tensor F)
  : result (tensor F) :=
  do _ <- check_index_range B npoint N idx;
  rfold (scatter_add_step grad_out idx) (indices [B; npoint; C]) grad_features.

Module GatherFunction.

Definition forward {F : Type} (ctx : context F) (features : tensor F)
  (idx : tensor Z) : result (tensor F * context F) :=
  let features := contiguous features in
  let idx := contiguous idx in
  do '(B, npoint) <- size2 idx;
  do '(_, C, N) <- size3 features;
  do output <- gather_forward B C N npoint features idx;
  let ctx := save_for_backward ctx [LongTensor idx] in
  let ctx := set_C ctx C in
  let ctx := set_N ctx N in
  Ok (output, ctx).

(** The returned pair holds one gradient per argument of [forward]:
    [grad_features] for [features] and [None] for [idx]. *)
Definition backward {F : Type} `{Dtype F} (ctx : context F) (grad_out : tensor F)
  : result (option (tensor F) * option (tensor F)) :=
  match saved_tensors ctx with
  | [LongTensor idx] =>
      do '(B, npoint) <- size2 idx;
      do C <- attr (ctx_C ctx) "C";
      do N <- attr (ctx_N ctx) "N";
      let grad_features := zeros [B; C; N] in
      do grad_features <-
        gather_backward B C N npoint (contiguous grad_out) idx grad_features;
      Ok (Some grad_features, None)
  | _ => Raise (ValueError "unpack")
  end.

Definition apply {F : Type} (features : tensor F) (idx : tensor Z)
  : result (tensor F) :=
  do '(output, _) <- forward new_context features idx; Ok output.

End GatherFunction.

Definition gather_points {F : Type} := @GatherFunction.apply F.

(** ** FurthestPointSampling *)

Definition point : Type := f32 * f32 * f32.

(** The literal [1e10], exact in binary32. *)
Definition f32_1e10 : f32 := f32_of_Z 10000000000.

(** Modelled from the spec: the distance of two points (section 4.2, step
    2), as the squared Euclidean distance in binary32. *)
Definition sq_dist (p q : point) : f32 :=
  let '(x1, y1, z1) := p in
  let '(x2, y2, z2) := q in
  let dx := f32_sub x1 x2 in
  let dy := f32_sub y1 y2 in
  let dz := f32_sub z1 z2 in
  f32_add (f32_add (f32_mul dx dx) (f32_mul dy dy)) (f32_mul dz dz).

(** Modelled from the spec: [min(current, d)] (section 4.2, step 2). *)
Definition fmin (current d : f32) : f32 := if f32_ltb d current then d else current.

(** Modelled from the spec: section 4.2, step 2, first half: every
    unselected point lowers its running minimum to its distance to the last
    selected point. *)
Definition update_running (pts : list point) (sel : list nat) (plast : point)
  (running : list f32) : list f32 :=
  imap (fun p qr => if bool_decide (p ∈ sel) then snd qr
                    else fmin (snd qr) (sq_dist (fst qr) plast))
       (zip pts running).

(** Modelled from the spec: section 4.2, step 2, second half: the point of
    maximum running minimum among the candidates; the scan keeps the earlier
    point on a tie. *)
Fixpoint argmax_from (cands : list (nat * f32)) (best : option (nat * f32))
  : option (nat * f32) :=
  match cands with
  | [] => best
  | (p, r) :: cs =>
      argmax_from cs
        (match best with
         | None => Some (p, r)
         | Some (q, rq) => if f32_ltb rq r then Some (p, r) else best
         end)
  end.

(** Modelled from the spec: the candidates of that scan are the unselected
    points, in ascending index order. *)
Definition argmax_unselected (sel : list nat) (running : list f32) : option nat :=
  fst <$> argmax_from (filter (fun pr => fst pr ∉ sel) (imap pair running)) None.

(** Modelled from the spec: one round of section 4.2, step 2: update, pick,
    append. *)
Definition fps_step (pts : list point) (st : list nat * list f32)
  : list nat * list f32 :=
  let '(sel, running) := st in
  match last sel with
  | Some l =>
      match pts !! l with
      | Some plast =>
          let running' := update_running pts sel plast running in
          match argmax_unselected sel running' with
          | Some nxt => (sel ++ [nxt], running')
          | None => (sel, running')
          end
      | None => st
      end
  | None => st
  end.

(** Modelled from the spec: section 4.2, steps 1 to 3, for one batch
    element: point 0 first, then [m - 1] greedy picks; the result is the
    selection in selection order. *)
Definition fps_select (pts : list point) (temp : list f32) (m : nat) : list nat :=
  match m with
  | 0 => []
  | S m' => fst (Nat.iter m' (fps_step pts) ([0], temp))
  end.

(** The points of batch element [b], and its row of running minima. *)
Definition read_points (xyz : tensor f32) (b N : nat) : result (list point) :=
  rmap (fun i => do x <- getr xyz [b; i; 0];
                 do y <- getr xyz [b; i; 1];
                 do z <- getr xyz [b; i; 2];
                 Ok (x, y, z))
       (seq 0 N).

Definition read_row (temp : tensor f32) (b N : nat) : result (list f32) :=
  rmap (fun i => getr temp [b; i]) (seq 0 N).

(** Modelled from the spec: the compiled kernel [sampling.furthest_sampling],
    absent from the Python source (section 4.2): it rejects [m > N] and a
    last axis that is not of size 3, then runs the greedy selection of each
    batch element on its own, from the running minima it is handed in
    [temp].  The selection is among the unselected points, the reading under
    which the spec's own scenario [[0; 4; 2]] comes out; distances are
    compared as squared distances.  The uninitialised [idx] argument is
    overwritten entirely and is not an input of the model; [temp] is scratch
    space that the caller never reads again. *)
Definition furthest_sampling (B N npoint : nat) (xyz temp : tensor f32)
  : result (tensor Z) :=
  if negb (bool_decide (size xyz = [B; N; 3])) then Raise InvalidShapeError
  else if N <? npoint then Raise InsufficientPointsError
  else
    do rows <- rmap (fun b => do pts <- read_points xyz b N;
                              do tmp <- read_row temp b N;
                              Ok (fps_select pts tmp npoint))
                    (seq 0 B);
    Ok (tabulate [B; npoint]
          (fun ix => match ix with
                     | [b; j] => Z.of_nat (nth j (nth b rows []) 0)
                     | _ => 0%Z
                     end)).

Module FurthestPointSampling.

(** [temp = torch.full([B, N], 1e10, dtype=torch.float32)] *)
Definition temp_init (B N : nat) : tensor f32 := full [B; N] f32_1e10.

Definition forward (ctx : context f32) (xyz : tensor f32) (npoint : nat)
  : result (tensor Z * context f32) :=
  do '(B, N, _) <- size3 xyz;
  let temp := temp_init B N in
  do idx <- furthest_sampling B N npoint xyz temp;
  let ctx := mark_non_differentiable ctx [LongTensor idx] in
  Ok (idx, ctx).

Definition apply (xyz : tensor f32) (npoint : nat) : result (tensor Z) :=
  do '(idx, _) <- forward new_context xyz npoint; Ok idx.

End FurthestPointSampling.

(** The message of the first assertion is given without the size it
    formats in. *)
Definition furthest_point_sample (xyz : tensor f32) (npoint : nat) (NCHW : bool)
  : result (tensor Z * tensor f32) :=
  do _ <- assert (dim xyz =? 3)
            "input for furthest sampling must be a 3D-tensor";
  do xyz <- (if NCHW then transpose21 xyz else Ok xyz);
  do d2 <- size_at xyz 2;
  do _ <- assert (d2 =? 3) "furthest sampling is implemented for 3D points";
  do idx <- FurthestPointSampling.apply xyz npoint;
  do xyz_t <- transpose21 xyz;
  do sampled_pc <- gather_points xyz_t idx;
  do sampled_pc <- (if negb NCHW then transpose21 sampled_pc else Ok sampled_pc);
  Ok (idx, sampled_pc).

(** ** Nearest-neighbour search and grouping *)

(** The external faiss calls of [search_index_pytorch], taken together:
    [index = faiss.GpuIndexFlatL2(GPU_RES, d)], [index.add_c(ntotal, ptr)]
    reading [ntotal * d] floats, then [index.search_c(n, xptr, k, Dptr, Iptr)]
    reading [n * d] floats and writing [n * k] distances and [n * k] labels.
    Arguments: [d], [ntotal], the database floats, [n], the query floats, [k]. *)
Definition flat_index (F : Type) : Type :=
  nat -> nat -> list F -> nat -> list F -> nat -> result (list F * list Z).

Section Search.

Context {F : Type}.
Variable faiss : flat_index F.

(** [t.storage().data_ptr()] is the address of the first element of the
    storage the view [t] lives in, not of the first element of [t]: what is
    read from it starts at storage position 0, whatever [storage_offset t]
    is. *)
Definition storage_data_ptr (t : tensor F) : list F := storage t.

(** [t.size(-1)] *)
Definition size_last (t : tensor F) : result nat :=
  match last (size t) with
  | Some d => Ok d
  | None => Raise (IndexError "Dimension specified as -1 but tensor has no dimensions")
  end.

(** What Python reports as [t.__class__] for a tensor object: a caller's
    buffer comes with it. *)
Inductive tensor_class : Type :=
  | torch_Tensor
  | torch_FloatTensor
  | torch_cuda_FloatTensor
  | torch_LongTensor
  | torch_cuda_LongTensor.

Definition class_eqb (a b : tensor_class) : bool :=
  match a, b with
  | torch_Tensor, torch_Tensor
  | torch_FloatTensor, torch_FloatTensor
  | torch_cuda_FloatTensor, torch_cuda_FloatTensor
  | torch_LongTensor, torch_LongTensor
  | torch_cuda_LongTensor, torch_cuda_LongTensor => true
  | _, _ => false
  end.

(** [cls in classes] *)
Definition class_in (cls : tensor_class) (classes : list tensor_class) : bool :=
  existsb (class_eqb cls) classes.

(** The output buffer of the search: a fresh [(n, k)] tensor when the caller
    passes [None], else the caller's tensor, whose class must be one of
    [classes] and whose size must be [(n, k)]. *)
Definition output_buffer {A : Type} (classes : list tensor_class)
  (given : option (tensor_class * tensor A)) (n k : nat)
  : result (option (tensor A)) :=
  match given with
  | None => Ok None
  | Some (cls, t) =>
      do _ <- assert (class_in cls classes) "";
      do _ <- assert (bool_decide (size t = [n; k])) "";
      do _ <- assert (is_contiguous t) "";
      Ok (Some t)
  end.

(** The search writes its [n * k] results at [buf.storage().data_ptr()]:
    from the start of the buffer's storage. *)
Definition written {A : Type} (buf : option (tensor A)) (n k : nat) (vals : list A)
  : tensor A :=
  match buf with
  | None => Tensor vals 0 [n; k]
  | Some t => Tensor (vals ++ drop (length vals) (storage t))
                     (storage_offset t) (size t)
  end.

Definition search_index_pytorch (database x : tensor F) (k : nat)
  (D : option (tensor_class * tensor F)) (I_ : option (tensor_class * tensor Z))
  : result (tensor F * tensor Z) :=
  let Dptr := storage_data_ptr database in
  do d <- size_last database;
  do ntotal <- size_at database 0;
  do _ <- assert (is_contiguous x) "";
  do '(n, d') <- size2 x;
  do _ <- assert (d' =? d) "";
  do D <- output_buffer [torch_FloatTensor; torch_cuda_FloatTensor] D n k;
  do I_ <- output_buffer [torch_LongTensor; torch_cuda_LongTensor] I_ n k;
  let xptr := storage_data_ptr x in
  do '(dists, labels) <-
    faiss d ntotal (take (ntotal * d) Dptr) n (take (n * d) xptr) k;
  Ok (written D n k dists, written I_ n k labels).

End Search.

Module KNN.

Section Forward.

Context {F : Type}.
Variable faiss : flat_index F.

Definition forward (ctx : context F) (k : nat) (query points : tensor F)
  : result ((tensor Z * tensor F) * context F) :=
  do B <- size_at points 0;
  do batches <- rmap (fun i => do p <- select points i;
                               do q <- select query i;
                               search_index_pytorch faiss p q k None None)
                     (seq 0 B);
  do index_batch <- stack (map snd batches);
  do distance_batch <- stack (map fst batches);
  let ctx := mark_non_differentiable ctx
               [LongTensor index_batch; FloatTensor distance_batch] in
  Ok ((index_batch, distance_batch), ctx).

Definition apply (k : nat) (query points : tensor F)
  : result (tensor Z * tensor F) :=
  do '(out, _) <- forward new_context k query points; Ok out.

End Forward.

End KNN.

Section Grouping.

Context {F : Type}.
Variable faiss : flat_index F.

Definition group_knn (k : nat) (query points : tensor F) (unique NCHW : bool)
  : result (tensor F * tensor Z * tensor F) :=
  do '(points_trans, query_trans) <-
    (if NCHW then
       do _ <- size3 points;
       do points_trans <- transpose21 points;
       do query_trans <- transpose21 query;
       Ok (points_trans, query_trans)
     else Ok (contiguous points, contiguous query));
  do '(batch_size, num_points, _) <- size3 points_trans;
  do q1 <- size_at query 1;
  do _ <- assert (q1 <=? num_points)
            "points size must be greater or equal to query size";
  do '(index_batch, distance_batch) <- KNN.apply faiss k query_trans points_trans;
  do q2 <- size_at query 2;
  do points_expanded <- unsqueeze1_expand points_trans q2;
  do c <- size_last points_trans;
  do index_batch_expanded <- unsqueeze_last_expand index_batch c;
  do neighbor_points <- torch_gather2 points_expanded index_batch_expanded;
  do neighbor_points <-
    (if NCHW then permute0312 neighbor_points else Ok neighbor_points);
  Ok (neighbor_points, index_batch, distance_batch).

End Grouping.

(** ** A reference instance of the external index

    Exact brute-force search on squared L2 distances in binary32, the [k]
    nearest first, equal distances in ascending label order, missing
    neighbours padded with label [-1] at distance [FLT_MAX], the largest
    finite binary32 value.  It serves to run the model on
    concrete inputs; the theorems below hold for every [flat_index]. *)

Fixpoint chunks {A : Type} (d n : nat) (l : list A) : list (list A) :=
  match n with
  | 0 => []
  | S n' => take d l :: chunks d n' (drop d l)
  end.

Definition l2sq (u v : list f32) : f32 :=
  foldl f32_add (S754_zero false)
        (zip_with (fun a b => let e := f32_sub a b in f32_mul e e) u v).

Fixpoint insert_sorted (x : f32 * Z) (l : list (f32 * Z)) : list (f32 * Z) :=
  match l with
  | [] => [x]
  | y :: l' => if f32_ltb (fst x) (fst y) then x :: l else y :: insert_sorted x l'
  end.

Definition f32_FLT_MAX : f32 := S754_finite false 16777215 104.

Definition nearest (k : nat) (vecs : list (list f32)) (q : list f32)
  : list (f32 * Z) :=
  let cands := imap (fun j v => (l2sq q v, Z.of_nat j)) vecs in
  let sorted := foldl (fun acc x => insert_sorted x acc) [] cands in
  take k (sorted ++ replicate k (f32_FLT_MAX, (-1)%Z)).

Definition exact_flat_index : flat_index f32 :=
  fun d ntotal db n xs k =>
    let rows := map (nearest k (chunks d ntotal db)) (chunks d n xs) in
    Ok (concat (map (map fst) rows), concat (map (map snd) rows)).

(** The same index with a limit on [k], as the GPU selection has one. *)
Definition bounded_flat_index (kmax : nat) : flat_index f32 :=
  fun d ntotal db n xs k =>
    if kmax <? k then Raise (RuntimeError "k exceeds the selection limit")
    else exact_flat_index d ntotal db n xs k.

(** ** Concrete inputs *)

Definition f32_vec (zs : list Z) : list f32 := map f32_of_Z zs.

(** Five points on a line at x = 0, 1, 2, 3, 4, channel-last. *)
Definition line5 : tensor f32 :=
  Tensor (f32_vec [0; 0; 0;  1; 0; 0;  2; 0; 0;  3; 0; 0;  4; 0; 0]%Z) 0 [1; 5; 3].

(** Two batch elements of one reference point each, channel-last: the
    origin in batch element 0, [x] on the first axis in batch element 1. *)
Definition two_batches (x : Z) : tensor f32 :=
  Tensor (f32_vec [0; 0; 0;  x; 0; 0]%Z) 0 [2; 1; 3].

(** Two batch elements of one query each, both at the origin. *)
Definition origin_queries : tensor f32 :=
  Tensor (f32_vec [0; 0; 0;  0; 0; 0]%Z) 0 [2; 1; 3].

(** One batch element with the point (1, 0, 0) twice and (5, 0, 0) once. *)
Definition duplicated_points : tensor f32 :=
  Tensor (f32_vec [1; 0; 0;  1; 0; 0;  5; 0; 0]%Z) 0 [1; 3; 3].

(** One query at (1, 0, 0), channel-last. *)
Definition query_at_1 : tensor f32 :=
  Tensor (f32_vec [1; 0; 0]%Z) 0 [1; 1; 3].

(** Two points with two coordinates each, channel-last. *)
Definition planar_points : tensor f32 :=
  Tensor (f32_vec [0; 0;  1; 1]%Z) 0 [1; 2; 2].

(** Two reference points, and one and three queries, channel-last. *)
Definition two_points : tensor f32 :=
  Tensor (f32_vec [0; 0; 0;  1; 0; 0]%Z) 0 [1; 2; 3].
Definition one_query : tensor f32 :=
  Tensor (f32_vec [0; 0; 0]%Z) 0 [1; 1; 3].
Definition three_queries : tensor f32 :=
  Tensor (f32_vec [0; 0; 0;  1; 0; 0;  2; 0; 0]%Z) 0 [1; 3; 3].

(** A gradient of ones of shape (1, 2, 4) and an index that names source
    position 2 twice and position 1 never. *)
Definition grad_ones : tensor f32 := ones [1; 2; 4].
Definition idx_repeated : tensor Z := Tensor [0; 2; 2; 0]%Z 0 [1; 4].
Definition features_123 : tensor f32 :=
  Tensor (f32_vec [1; 2; 3;  4; 5; 6]%Z) 0 [1; 2; 3].

(** ** What the backward pass of the gather is to compute *)

(** The output positions [j] of batch element [b] that name source
    position [n], in ascending order. *)
Definition referencing (idx : tensor Z) (b npoint n : nat) : list nat :=
  filter (fun j => get idx [b; j] = Some (Z.of_nat n)) (seq 0 npoint).

(** The sum, from zero, of the gradients of those positions. *)
Definition accumulated {F : Type} `{Dtype F} (grad_out : tensor F) (idx : tensor Z)
  (b c n npoint : nat) : F :=
  foldl fadd fzero
        (omap (fun j => get grad_out [b; c; j]) (referencing idx b npoint n)).

(** A count as an element of the dtype: 0 + 1 + ... + 1. *)
Definition count_scalar {F : Type} `{Dtype F} (k : nat) : F :=
  Nat.iter k (fun x => fadd x fone) fzero.

(** The contributions a run of [scatter_add_step] over the loop positions
    [L] makes to the entry [(b, c, n)] of the gradient, in loop order. *)
Definition contributions {F : Type} (grad_out : tensor F) (idx : tensor Z)
  (b c n : nat) (ix : list nat) : list F :=
  match ix with
  | [b'; j; c'] =>
      if bool_decide (b' = b /\ c' = c /\ get idx [b'; j] = Some (Z.of_nat n))
      then option_list (get grad_out [b'; c'; j])
      else []
  | _ => []
  end.

(** Every entry of the index names a source position. *)
Definition indices_valid (B npoint N : nat) (idx : tensor Z) : Prop :=
  forall b j, b < B -> j < npoint ->
              exists n, get idx [b; j] = Some (Z.of_nat n) /\ n < N.

(** ** What furthest-point sampling is to compute *)

(** The running minimum distance of every point to the selected set [sel],
    started from [temp]. *)
Definition running_minima (pts : list point) (temp : list f32) (sel : list nat)
  : list f32 :=
  imap (fun p qt =>
          foldl (fun r s => match pts !! s with
                            | Some ps => fmin r (sq_dist (fst qt) ps)
                            | None => r
                            end)
                (snd qt) sel)
       (zip pts temp).

(** The greedy pick: the unselected point that maximises the running
    minimum distance to [sel], the smallest index on a tie. *)
Definition greedy_next (pts : list point) (temp : list f32) (sel : list nat)
  : option nat :=
  argmax_unselected sel (running_minima pts temp sel).

(** The state of the selection loop after [i] picks beyond point 0. *)
Definition fps_state (pts : list point) (temp : list f32) (i : nat)
  : list nat * list f32 :=
  Nat.iter i (fps_step pts) ([0], temp).

(** Row [b] of an index tensor of shape (B, m), as a list of entries. *)
Definition index_row (idx : tensor Z) (b m : nat) : list (option Z) :=
  map (fun j => get idx [b; j]) (seq 0 m).

(** The invariant of the selection loop on [N] points: the selection is
    duplicate-free and in range, and the running minimum of every unselected
    point accounts for every selected point but the last. *)
Definition fps_inv (pts : list point) (temp : list f32) (N : nat)
  (sel : list nat) (running : list f32) : Prop :=
  length running = N /\ NoDup sel /\ Forall (fun p => p < N) sel
  /\ exists sel' l, sel = sel' ++ [l]
       /\ forall p, p ∉ sel -> running !! p = running_minima pts temp sel' !! p.

(** ** Layouts

    The size of a batch of [N] points with [d] coordinates each, and the
    position of coordinate [c] of point [n], in either layout. *)
Definition layout_size (NCHW : bool) (B N d : nat) : list nat :=
  if NCHW then [B; d; N] else [B; N; d].

Definition layout_ix (NCHW : bool) (b n c : nat) : list nat :=
  if NCHW then [b; c; n] else [b; n; c].

(** [xyz] as the sampler sees it: channel-last. *)
Definition to_channel_last {A : Type} (NCHW : bool) (t : tensor A)
  : result (tensor A) :=
  if NCHW then transpose21 t else Ok t.

(** What [KNN.forward] hands back when the search returned distances [D]
    and labels [I_] for one batch element: that one result, [B] times. *)
Definition repeated_batches {F : Type} (ctx : context F) (B M k : nat)
  (D : list F) (I_ : list Z) : (tensor Z * tensor F) * context F :=
  let index_batch := Tensor (concat (replicate B (take (numel [M; k]) I_))) 0 [B; M; k] in
  let distance_batch := Tensor (concat (replicate B (take (numel [M; k]) D))) 0 [B; M; k] in
  ((index_batch, distance_batch),
   mark_non_differentiable ctx [LongTensor index_batch; FloatTensor distance_batch]).

(** ** The order of binary32 values

    [SFcompare] orders the values that are not NaN like triples of integers
    in lexicographic order: the sign class, then the exponent, then the
    mantissa, the last two negated for negative values. *)
Definition f32_key (x : f32) : option (Z * Z * Z) :=
  match x with
  | S754_nan => None
  | S754_zero _ => Some (0, 0, 0)%Z
  | S754_infinity s => Some (if s then (-2)%Z else 2%Z, 0%Z, 0%Z)
  | S754_finite s m e =>
      Some (if s then ((-1)%Z, (- e)%Z, Z.neg m) else (1%Z, e, Z.pos m))
  end.

Definition lex_lt (a b : Z * Z * Z) : Prop :=
  (fst (fst a) < fst (fst b)
   \/ (fst (fst a) = fst (fst b)
       /\ (snd (fst a) < snd (fst b)
           \/ (snd (fst a) = snd (fst b) /\ snd a < snd b))))%Z.

(** ** What [normalize_point_batch] is to compute *)

(** The values of coordinate [c] over the points of batch element [b], and
    the coordinates of point [n] of batch element [b]. *)
Definition point_values {A : Type} (t : tensor A) (NCHW : bool) (b c N : nat)
  : list A :=
  omap (fun n => get t (layout_ix NCHW b n c)) (seq 0 N).

Definition dim_values {A : Type} (t : tensor A) (NCHW : bool) (b n C : nat)
  : list A :=
  omap (fun c => get t (layout_ix NCHW b n c)) (seq 0 C).

(** [pc * furthest_distance + centroid] *)
Definition denormalize {F : Type} `{Dtype F} (pc centroid furthest_distance : tensor F)
  : result (tensor F) :=
  do scaled <- broadcast2 fmul pc furthest_distance;
  broadcast2 fadd scaled centroid.

(** The maximum over the points of each batch element of their Euclidean
    norm, computed as [normalize_point_batch] computes it. *)
Definition max_point_norm {F : Type} `{Dtype F} `{Reduction F}
  (pc : tensor F) (NCHW : bool)
  : result (tensor F) :=
  do squares <- tmap (fun x => fmul x x) pc;
  do sums <- torch_sum squares (if NCHW then 1 else 2);
  do norms <- tmap fsqrt sums;
  torch_max norms (if NCHW then 2 else 1).

(** The same quantities on values: the mean of [N] values, the norm of a
    point with [C] coordinates, and the largest norm among [N] points. *)
Definition max_list {F : Type} `{Dtype F} (l : list F) : F :=
  match l with
  | [] => fzero
  | x :: l' => foldl fmax x l'
  end.

Definition mean_value {F : Type} `{Reduction F} (V : nat -> F) (N : nat) : F :=
  rmean (map V (seq 0 N)).

Definition norm_value {F : Type} `{Dtype F} `{Reduction F} (V : nat -> F) (C : nat) : F :=
  fsqrt (rsum (map (fun c => fmul (V c) (V c)) (seq 0 C))).

Definition max_norm_value {F : Type} `{Dtype F} `{Reduction F}
  (V : nat -> nat -> F) (N C : nat) : F :=
  max_list (map (fun n => norm_value (V n) C) (seq 0 N)).

(** A tensor of [N] points with [C] coordinates per batch element whose
    entries are given by [V]. *)
Definition has_values {A : Type} (t : tensor A) (NCHW : bool) (B N C : nat)
  (V : nat -> nat -> nat -> A) : Prop :=
  well_formed t /\ size t = layout_size NCHW B N C
  /\ forall b n c, b < B -> n < N -> c < C ->
       get t (layout_ix NCHW b n c) = Some (V b n c).

(** The binary32 value 2^-30, and a batch of the two points (1, 0, 0) and
    (2^-30, 0, 0), channel-last. *)
Definition f32_tiny : f32 := binary_normalize prec32 emax32 1 (-30) false.
Definition unit_and_tiny : tensor f32 :=
  Tensor [f32_of_Z 1; f32_of_Z 0; f32_of_Z 0;  f32_tiny; f32_of_Z 0; f32_of_Z 0]
         0 [1; 2; 3].

(** ** Further concrete inputs *)

(** Three collinear points at 0, 200000 and 300000, channel-last: their
    squared distances to the first exceed 1e10. *)
Definition far_points : tensor f32 :=
  Tensor (f32_vec [0; 0; 0;  200000; 0; 0;  300000; 0; 0]%Z) 0 [1; 3; 3].

(** The five collinear points of [line5], channel-first. *)
Definition line5_cf : tensor f32 :=
  Tensor (f32_vec [0; 1; 2; 3; 4;  0; 0; 0; 0; 0;  0; 0; 0; 0; 0]%Z) 0 [1; 3; 5].

(** One batch element without points, and a batch without elements,
    channel-last. *)
Definition no_points : tensor f32 := Tensor [] 0 [1; 0; 3].
Definition no_batch (N : nat) : tensor f32 := Tensor [] 0 [0; N; 3].

(** Four points on a line, used as reference points and as queries,
    channel-last. *)
Definition four_points : tensor f32 :=
  Tensor (f32_vec [0; 0; 0;  1; 0; 0;  2; 0; 0;  3; 0; 0]%Z) 0 [1; 4; 3].

(** Two reference points and one query, channel-first. *)
Definition two_points_cf : tensor f32 :=
  Tensor (f32_vec [0; 1;  0; 0;  0; 0]%Z) 0 [1; 3; 2].
Definition one_query_cf : tensor f32 :=
  Tensor (f32_vec [0; 0; 0]%Z) 0 [1; 3; 1].

(** One query with two coordinates, channel-last. *)
Definition planar_query : tensor f32 :=
  Tensor (f32_vec [0; 0]%Z) 0 [1; 2].

(** Two reference points and one query as [KNN.forward] hands them to the
    search: one batch element, channel-last. *)
Definition two_rows : tensor f32 :=
  Tensor (f32_vec [0; 0; 0;  1; 0; 0]%Z) 0 [2; 3].
Definition row_query : tensor f32 :=
  Tensor (f32_vec [0; 0; 0]%Z) 0 [1; 3].

(** A caller's distance buffer of one row and two columns. *)
Definition short_buffer : tensor f32 :=
  Tensor (f32_vec [0; 0]%Z) 0 [1; 2].

(** The position of neighbour [j] of query [m], coordinate [c], in the
    grouped output of either layout, and the size of that output. *)
Definition grouped_ix (NCHW : bool) (b m j c : nat) : list nat :=
  if NCHW then [b; c; m; j] else [b; m; j; c].

Definition grouped_size (NCHW : bool) (B M k C : nat) : list nat :=
  if NCHW then [B; C; M; k] else [B; M; k; C].

(** * Properties *)

(** ** Fallible loops *)

Lemma rbind_Ok {A B : Type} (m : result A) (k : A -> result B) (b : B) :
  rbind m k = Ok b -> exists a, m = Ok a /\ k a = Ok b.
Proof. destruct m as [a|e]; simpl; [eauto | discriminate]. Qed.

Ltac inv_bind H :=
  let a := fresh "a" in
  let Ha := fresh "Ha" in
  apply rbind_Ok in H; destruct H as (a & Ha & H).

Lemma rmap_Ok_length {A B : Type} (f : A -> result B) (l : list A) (bs : list B) :
  rmap f l = Ok bs -> length bs = length l.
Proof.
  revert bs. induction l as [|a l IH]; simpl; intros bs H.
  - injection H as <-. reflexivity.
  - inv_bind H. inv_bind H. injection H as <-. simpl. f_equal. eauto.
Qed.

Lemma rmap_Ok_lookup {A B : Type} (f : A -> result B) (l : list A) (bs : list B)
  (i : nat) (a : A) :
  rmap f l = Ok bs -> l !! i = Some a ->
  exists b, bs !! i = Some b /\ f a = Ok b.
Proof.
  revert bs i. induction l as [|x l IH]; simpl; intros bs i H Hi; [discriminate|].
  inv_bind H. inv_bind H. injection H as <-.
  destruct i as [|i]; simpl in *.
  - injection Hi as ->. eauto.
  - eauto.
Qed.

Lemma rmap_succeeds {A B : Type} (f : A -> result B) (l : list A) :
  (forall a, In a l -> succeeds (f a)) -> succeeds (rmap f l).
Proof.
  induction l as [|x l IH]; simpl; intros H.
  - eexists; reflexivity.
  - destruct (H x) as [b Hb]; [auto|].
    destruct IH as [bs Hbs]; [auto|].
    rewrite Hb, Hbs. simpl. eexists; reflexivity.
Qed.

(** ** Lemmas on the tensor model *)

Lemma length_indices (sz : list nat) : length (indices sz) = numel sz.
Proof.
  induction sz as [|d sz IH]; simpl; [reflexivity|].
  assert (H : forall l : list nat,
             length (flat_map (fun i => map (cons i) (indices sz)) l)
             = length l * numel sz).
  { induction l as [|x l IHl]; simpl; [reflexivity|].
    rewrite length_app, length_map, IH, IHl. reflexivity. }
  rewrite H, length_seq. reflexivity.
Qed.

Lemma ravel_lt (sz ix : list nat) (k : nat) :
  ravel sz ix = Some k -> k < numel sz.
Proof.
  revert ix k. induction sz as [|d sz IH]; intros [|i ix] k; simpl; try discriminate.
  - intros [= <-]. lia.
  - destruct (Nat.ltb_spec i d) as [Hi|Hi]; [|discriminate].
    destruct (ravel sz ix) as [k'|] eqn:E; [|discriminate].
    intros [= <-]. specialize (IH _ _ E). nia.
Qed.

Lemma lookup_blocks {B : Type} (g : nat -> list B) (n : nat) (l : list nat) (j k : nat) (i : nat) :
  (forall x, length (g x) = n) ->
  l !! j = Some i -> k < n ->
  flat_map g l !! (j * n + k) = g i !! k.
Proof.
  intros Hlen. revert j. induction l as [|x l IH]; intros j Hj Hk; [discriminate|].
  simpl. destruct j as [|j]; simpl in *.
  - injection Hj as ->. rewrite lookup_app_l; [reflexivity|]. rewrite Hlen. lia.
  - rewrite lookup_app_r; rewrite Hlen; [|lia].
    replace (n + j * n + k - n) with (j * n + k) by lia. apply IH; assumption.
Qed.

Lemma indices_ravel (sz ix : list nat) (k : nat) :
  ravel sz ix = Some k -> indices sz !! k = Some ix.
Proof.
  revert ix k. induction sz as [|d sz IH]; intros [|i ix] k; simpl; try discriminate.
  - intros [= <-]. reflexivity.
  - destruct (Nat.ltb_spec i d) as [Hi|Hi]; [|discriminate].
    destruct (ravel sz ix) as [k'|] eqn:E; [|discriminate].
    intros [= <-].
    rewrite (lookup_blocks _ (numel sz) _ i k' i).
    + rewrite list_lookup_fmap, (IH _ _ E). reflexivity.
    + intros x. rewrite length_map. apply length_indices.
    + rewrite lookup_seq. split; [reflexivity | assumption].
    + eapply ravel_lt; eassumption.
Qed.

Lemma ravel_inj (sz ix ix' : list nat) (k : nat) :
  ravel sz ix = Some k -> ravel sz ix' = Some k -> ix = ix'.
Proof.
  intros H H'. apply indices_ravel in H, H'. congruence.
Qed.

Lemma get_tabulate {A : Type} (sz : list nat) (f : list nat -> A) (ix : list nat) :
  get (tabulate sz f) ix = match ravel sz ix with Some _ => Some (f ix) | None => None end.
Proof.
  unfold get, tabulate; simpl.
  destruct (ravel sz ix) as [k|] eqn:E; [|reflexivity].
  rewrite list_lookup_fmap, (indices_ravel _ _ _ E). reflexivity.
Qed.

Lemma well_formed_tabulate {A : Type} (sz : list nat) (f : list nat -> A) :
  well_formed (tabulate sz f).
Proof.
  unfold well_formed, tabulate; simpl. rewrite length_map, length_indices. lia.
Qed.

Lemma get_is_Some {A : Type} (t : tensor A) (ix : list nat) :
  well_formed t -> is_Some (ravel (size t) ix) -> is_Some (get t ix).
Proof.
  unfold well_formed, get. intros Hwf [k Hk]. rewrite Hk.
  apply lookup_lt_is_Some. apply ravel_lt in Hk. lia.
Qed.

Lemma get_set_eq {A : Type} (t t' : tensor A) (ix : list nat) (v : A) :
  well_formed t -> set t ix v = Some t' -> get t' ix = Some v.
Proof.
  unfold well_formed, set, get. intros Hwf.
  destruct (ravel (size t) ix) as [k|] eqn:E; [|discriminate].
  intros [= <-]. simpl. rewrite E.
  apply list_lookup_insert_eq. apply ravel_lt in E. lia.
Qed.

Lemma get_set_ne {A : Type} (t t' : tensor A) (ix ix' : list nat) (v : A) :
  set t ix v = Some t' -> ix <> ix' -> get t' ix' = get t ix'.
Proof.
  unfold set, get.
  destruct (ravel (size t) ix) as [k|] eqn:E; [|discriminate].
  intros [= <-] Hne. simpl.
  destruct (ravel (size t) ix') as [k'|] eqn:E'; [|reflexivity].
  apply list_lookup_insert_ne. intros Heq.
  apply Hne. eapply ravel_inj; [eassumption|].
  replace k with k' by lia. assumption.
Qed.

Lemma set_shape {A : Type} (t t' : tensor A) (ix : list nat) (v : A) :
  set t ix v = Some t' ->
  size t' = size t /\ storage_offset t' = storage_offset t
  /\ length (storage t') = length (storage t).
Proof.
  unfold set. destruct (ravel (size t) ix); [|discriminate].
  intros [= <-]. simpl. rewrite length_insert. auto.
Qed.

Lemma ravel_indices_In (sz ix : list nat) :
  In ix (indices sz) -> is_Some (ravel sz ix).
Proof.
  revert ix. induction sz as [|d sz IH]; simpl; intros ix H.
  - destruct H as [<-|[]]. eexists; reflexivity.
  - apply in_flat_map in H as (i & Hi & H).
    apply in_map_iff in H as (ix' & <- & Hix').
    apply in_seq in Hi. simpl.
    destruct (Nat.ltb_spec i d); [|lia].
    destruct (IH _ Hix') as [k ->]. eexists; reflexivity.
Qed.

Lemma tabulate_r_Ok {A : Type} (sz : list nat) (f : list nat -> result A)
  (t : tensor A) :
  tabulate_r sz f = Ok t ->
  size t = sz /\ storage_offset t = 0 /\ well_formed t
  /\ forall ix, is_Some (ravel sz ix) ->
                exists v, f ix = Ok v /\ get t ix = Some v.
Proof.
  unfold tabulate_r. intros H. inv_bind H. injection H as <-. simpl.
  pose proof (rmap_Ok_length _ _ _ Ha) as Hlen.
  repeat split.
  - unfold well_formed; simpl. rewrite Hlen, length_indices. lia.
  - intros ix [k Hk]. unfold get; simpl. rewrite Hk.
    destruct (rmap_Ok_lookup _ _ _ _ _ Ha (indices_ravel _ _ _ Hk)) as (v & Hv & Hf).
    eauto.
Qed.

Lemma tabulate_r_succeeds {A : Type} (sz : list nat) (f : list nat -> result A) :
  (forall ix, is_Some (ravel sz ix) -> succeeds (f ix)) ->
  succeeds (tabulate_r sz f).
Proof.
  intros H. unfold tabulate_r.
  destruct (rmap_succeeds f (indices sz)) as [st Hst].
  - intros ix Hix. apply H, ravel_indices_In, Hix.
  - rewrite Hst. eexists; reflexivity.
Qed.

Lemma getr_Ok {A : Type} (t : tensor A) (ix : list nat) (v : A) :
  getr t ix = Ok v <-> get t ix = Some v.
Proof.
  unfold getr. destruct (get t ix); split; intros H; congruence.
Qed.

Lemma get_full {A : Type} (sz ix : list nat) (v : A) :
  is_Some (ravel sz ix) -> get (full sz v) ix = Some v.
Proof.
  intros [k Hk]. unfold full. rewrite get_tabulate, Hk. reflexivity.
Qed.

Lemma ravel2 (a b i j : nat) :
  i < a -> j < b -> is_Some (ravel [a; b] [i; j]).
Proof.
  intros Hi Hj. simpl.
  destruct (Nat.ltb_spec i a); [|lia]. destruct (Nat.ltb_spec j b); [|lia].
  eexists; reflexivity.
Qed.

Lemma ravel3 (a b c i j k : nat) :
  i < a -> j < b -> k < c -> is_Some (ravel [a; b; c] [i; j; k]).
Proof.
  intros Hi Hj Hk. simpl.
  destruct (Nat.ltb_spec i a); [|lia]. destruct (Nat.ltb_spec j b); [|lia].
  destruct (Nat.ltb_spec k c); [|lia].
  eexists; reflexivity.
Qed.

Lemma ravel2_inv (a b : nat) (ix : list nat) :
  is_Some (ravel [a; b] ix) -> exists i j, ix = [i; j] /\ i < a /\ j < b.
Proof.
  destruct ix as [|i [|j [|? ?]]]; simpl; intros [pos H]; try discriminate.
  - destruct (i <? a); discriminate.
  - destruct (Nat.ltb_spec i a); [|discriminate].
    destruct (Nat.ltb_spec j b); [|discriminate]. eauto.
  - destruct (i <? a); [|discriminate]. destruct (j <? b); discriminate.
Qed.

Lemma ravel3_inv (a b c : nat) (ix : list nat) :
  is_Some (ravel [a; b; c] ix) ->
  exists i j k, ix = [i; j; k] /\ i < a /\ j < b /\ k < c.
Proof.
  destruct ix as [|i [|j [|k [|? ?]]]]; simpl; intros [pos H]; try discriminate.
  - destruct (i <? a); discriminate.
  - destruct (i <? a); [|discriminate]. destruct (j <? b); discriminate.
  - destruct (Nat.ltb_spec i a); [|discriminate].
    destruct (Nat.ltb_spec j b); [|discriminate].
    destruct (Nat.ltb_spec k c); [|discriminate]. eauto 10.
  - destruct (i <? a); [|discriminate]. destruct (j <? b); [|discriminate].
    destruct (k <? c); discriminate.
Qed.

Lemma rmap_const {A B : Type} (f : A -> result B) (l : list A) (v : B) :
  (forall a, In a l -> f a = Ok v) -> rmap f l = Ok (replicate (length l) v).
Proof.
  induction l as [|x l IH]; simpl; intros H; [reflexivity|].
  rewrite (H x), IH by auto. reflexivity.
Qed.

(** ** The running minima at the start of sampling *)

(** C6, as stated, fails: the running minimum of a point at the start of
    furthest-point sampling is not +infinity. *)
Lemma temp_init_not_infinity :
  get (FurthestPointSampling.temp_init 1 1) [0; 0] <> Some f32_inf.
Proof. vm_compute. discriminate. Qed.

(** C6, amended: before any selection iteration runs, the running minimum
    of every point [i] of every batch element [b] is the finite binary32
    value 1e10 (mantissa 9765625, exponent 10), which is not +infinity; it is
    the row of running minima the selection of batch element [b] starts
    from. *)
Theorem temp_init_sentinel (B N b i : nat) :
  b < B -> i < N ->
  get (FurthestPointSampling.temp_init B N) [b; i] = Some f32_1e10
  /\ read_row (FurthestPointSampling.temp_init B N) b N = Ok (replicate N f32_1e10)
  /\ f32_1e10 = S754_finite false 9765625 10
  /\ f32_1e10 <> f32_inf.
Proof.
  intros Hb Hi. unfold FurthestPointSampling.temp_init. repeat split.
  - apply get_full, ravel2; assumption.
  - unfold read_row.
    replace (replicate N f32_1e10) with (replicate (length (seq 0 N)) f32_1e10)
      by (rewrite length_seq; reflexivity).
    apply rmap_const.
    intros a Ha. apply in_seq in Ha. apply getr_Ok, get_full, ravel2; lia.
  - discriminate.
Qed.

Lemma temp_init_sentinel_witness :
  1 < 2 /\ 2 < 3
  /\ get (FurthestPointSampling.temp_init 2 3) [1; 2] = Some f32_1e10
  /\ read_row (FurthestPointSampling.temp_init 2 3) 1 3 = Ok (replicate 3 f32_1e10)
  /\ f32_1e10 = S754_finite false 9765625 10
  /\ f32_1e10 <> f32_inf.
Proof.
  split; [lia|]. split; [lia|]. apply (temp_init_sentinel 2 3 1 2); lia.
Defined.

(** ** Classification of outputs for the differentiation engine *)

(** C8: whenever the forward pass of the nearest-neighbour search returns,
    its context marks both outputs, indices and distances, as
    non-differentiable; whenever the forward pass of furthest-point sampling
    returns, its context marks the index output as non-differentiable;
    whenever the backward rule of the gather returns, it returns a gradient
    for [features] and none for the index argument. *)
Theorem autograd_classification {F : Type} `{Dtype F} (faiss : flat_index F)
  (ctx ctx1 : context F) (k : nat) (query points : tensor F)
  (out : tensor Z * tensor F)
  (ctxf ctx2 : context f32) (xyz : tensor f32) (npoint : nat) (idx : tensor Z)
  (ctxg : context F) (grad_out : tensor F)
  (grads : option (tensor F) * option (tensor F)) :
  (KNN.forward faiss ctx k query points = Ok (out, ctx1) ->
   non_differentiable ctx1 = [LongTensor (fst out); FloatTensor (snd out)])
  /\ (FurthestPointSampling.forward ctxf xyz npoint = Ok (idx, ctx2) ->
      non_differentiable ctx2 = [LongTensor idx])
  /\ (GatherFunction.backward ctxg grad_out = Ok grads ->
      exists grad_features, grads = (Some grad_features, None)).
Proof.
  repeat split.
  - unfold KNN.forward. intros Hf.
    inv_bind Hf. inv_bind Hf. inv_bind Hf. inv_bind Hf.
    injection Hf as <- <-. reflexivity.
  - unfold FurthestPointSampling.forward. intros Hf.
    inv_bind Hf. destruct a as [[B N] d]. inv_bind Hf.
    injection Hf as <- <-. reflexivity.
  - unfold GatherFunction.backward. intros Hb.
    destruct (saved_tensors ctxg) as [|[t|t] [|? ?]]; try discriminate.
    inv_bind Hb. destruct a as [B npoint']. inv_bind Hb. inv_bind Hb. inv_bind Hb.
    injection Hb as <-. eauto.
Qed.

Lemma autograd_classification_witness :
  (exists out ctx1,
     KNN.forward exact_flat_index new_context 1 origin_queries (two_batches 1)
     = Ok (out, ctx1)
     /\ non_differentiable ctx1 = [LongTensor (fst out); FloatTensor (snd out)])
  /\ (exists idx ctx2,
        FurthestPointSampling.forward new_context line5 3 = Ok (idx, ctx2)
        /\ non_differentiable ctx2 = [LongTensor idx])
  /\ (exists grads,
        GatherFunction.backward
          (Context [LongTensor idx_repeated] (Some 2) (Some 3) []) grad_ones
        = Ok grads
        /\ exists grad_features, grads = (Some grad_features, None)).
Proof.
  assert (H1 : exists out ctx1,
             KNN.forward exact_flat_index new_context 1 origin_queries (two_batches 1)
             = Ok (out, ctx1)).
  { eexists _, _. vm_compute. reflexivity. }
  assert (H2 : exists idx ctx2,
             FurthestPointSampling.forward new_context line5 3 = Ok (idx, ctx2)).
  { eexists _, _. vm_compute. reflexivity. }
  assert (H3 : exists grads,
             GatherFunction.backward
               (Context [LongTensor idx_repeated] (Some 2) (Some 3) []) grad_ones
             = Ok grads).
  { eexists. vm_compute. reflexivity. }
  destruct H1 as (out & ctx1 & H1), H2 as (idx & ctx2 & H2), H3 as (grads & H3).
  pose proof (autograd_classification exact_flat_index new_context ctx1 1
                origin_queries (two_batches 1) out new_context ctx2 line5 3 idx
                (Context [LongTensor idx_repeated] (Some 2) (Some 3) []) grad_ones
                grads) as (K1 & K2 & K3).
  split; [|split].
  - exists out, ctx1. split; [exact H1 | exact (K1 H1)].
  - exists idx, ctx2. split; [exact H2 | exact (K2 H2)].
  - exists grads. split; [exact H3 | exact (K3 H3)].
Defined.

(** ** The [unique] flag of [group_knn] *)

(** C7: the grouping returns the same outputs whether [unique] is true or
    false, and the indices and distances it returns are those of the search
    on the inputs in canonical layout, unchanged: nothing is deduplicated. *)
Theorem group_knn_unique_inert {F : Type} (faiss : flat_index F) (k : nat)
  (query points : tensor F) (NCHW : bool) :
  group_knn faiss k query points true NCHW
  = group_knn faiss k query points false NCHW
  /\ forall unique neighbor_points index_batch distance_batch,
       group_knn faiss k query points unique NCHW
       = Ok (neighbor_points, index_batch, distance_batch) ->
       exists points_trans query_trans,
         (if NCHW then transpose21 points else Ok points) = Ok points_trans
         /\ (if NCHW then transpose21 query else Ok query) = Ok query_trans
         /\ KNN.apply faiss k query_trans points_trans
            = Ok (index_batch, distance_batch).
Proof.
  split; [reflexivity|].
  intros unique np ib db Hg. unfold group_knn in Hg.
  inv_bind Hg. destruct a as [pt qt]. exists pt, qt.
  assert (Hlayout : (if NCHW then transpose21 points else Ok points) = Ok pt
                    /\ (if NCHW then transpose21 query else Ok query) = Ok qt).
  { destruct NCHW.
    - inv_bind Ha. inv_bind Ha. inv_bind Ha. injection Ha as <- <-. auto.
    - injection Ha as <- <-. auto. }
  destruct Hlayout as [Hp Hq]. split; [exact Hp|]. split; [exact Hq|].
  inv_bind Hg. destruct a as [[B N] C]. inv_bind Hg. inv_bind Hg.
  inv_bind Hg. destruct a1 as [ib' db'].
  repeat inv_bind Hg. injection Hg as _ <- <-. assumption.
Qed.

Lemma group_knn_unique_inert_witness :
  exists neighbor_points,
    group_knn exact_flat_index 2 query_at_1
      duplicated_points true false
    = Ok (neighbor_points, Tensor [0; 1]%Z 0 [1; 1; 2],
          Tensor [S754_zero false; S754_zero false] 0 [1; 1; 2])
    /\ KNN.apply exact_flat_index 2 query_at_1
         duplicated_points
       = Ok (Tensor [0; 1]%Z 0 [1; 1; 2],
             Tensor [S754_zero false; S754_zero false] 0 [1; 1; 2]).
Proof.
  assert (Hg : exists neighbor_points,
             group_knn exact_flat_index 2 query_at_1
               duplicated_points true false
             = Ok (neighbor_points, Tensor [0; 1]%Z 0 [1; 1; 2],
                   Tensor [S754_zero false; S754_zero false] 0 [1; 1; 2])).
  { eexists. vm_compute. reflexivity. }
  destruct Hg as (np & Hg). exists np. split; [exact Hg|].
  destruct (group_knn_unique_inert exact_flat_index 2
              query_at_1 duplicated_points false)
    as (_ & Hpass).
  destruct (Hpass _ _ _ _ Hg) as (pt & qt & Hp & Hq & Hk).
  injection Hp as <-. injection Hq as <-. exact Hk.
Defined.

(** ** The backward pass of the gather *)

Lemma rfold_const {A S : Type} (body : S -> A -> result S) (l : list A) (s : S) :
  (forall a, In a l -> body s a = Ok s) -> rfold body l s = Ok s.
Proof.
  induction l as [|x l IH]; simpl; intros H; [reflexivity|].
  rewrite (H x) by auto. simpl. apply IH. auto.
Qed.

Lemma check_index_range_Ok (B npoint N : nat) (idx : tensor Z) :
  indices_valid B npoint N idx -> check_index_range B npoint N idx = Ok tt.
Proof.
  intros Hv. unfold check_index_range. apply rfold_const.
  intros ix Hix. apply ravel_indices_In, ravel2_inv in Hix.
  destruct Hix as (b & j & -> & Hb & Hj).
  destruct (Hv b j Hb Hj) as (n & Hn & Hlt).
  unfold index_in_range. rewrite Hn.
  destruct (Z.leb_spec 0 (Z.of_nat n)); [|lia].
  destruct (Z.ltb_spec (Z.of_nat n) (Z.of_nat N)); [|lia]. reflexivity.
Qed.

Lemma flat_map_flat_map {A B C : Type} (f : B -> list C) (g : A -> list B)
  (l : list A) :
  flat_map f (flat_map g l) = flat_map (fun x => flat_map f (g x)) l.
Proof.
  induction l as [|x l IH]; simpl; [reflexivity|].
  rewrite flat_map_app, IH. reflexivity.
Qed.

Lemma flat_map_map {A B C : Type} (f : B -> list C) (h : A -> B) (l : list A) :
  flat_map f (map h l) = flat_map (fun x => f (h x)) l.
Proof.
  induction l as [|x l IH]; simpl; [reflexivity|]. rewrite IH. reflexivity.
Qed.

Lemma flat_map_indices {C : Type} (f : list nat -> list C) (d : nat) (sz : list nat) :
  flat_map f (indices (d :: sz))
  = flat_map (fun i => flat_map (fun ix => f (i :: ix)) (indices sz)) (seq 0 d).
Proof.
  simpl. rewrite flat_map_flat_map. apply flat_map_ext. intros i.
  apply flat_map_map.
Qed.

Lemma flat_map_nil {A C : Type} (f : A -> list C) (l : list A) :
  (forall a, In a l -> f a = []) -> flat_map f l = [].
Proof.
  induction l as [|x l IH]; simpl; intros H; [reflexivity|].
  rewrite (H x), IH by auto. reflexivity.
Qed.

Lemma flat_map_single {C : Type} (f : nat -> list C) (s d i : nat) :
  s <= i < s + d -> (forall i', i' <> i -> f i' = []) ->
  flat_map f (seq s d) = f i.
Proof.
  revert s. induction d as [|d IH]; intros s Hi Hf; [lia|].
  simpl. destruct (decide (s = i)) as [->|Hne].
  - rewrite flat_map_nil; [apply app_nil_r|]. intros a Ha.
    apply in_seq in Ha. apply Hf. lia.
  - rewrite (Hf s Hne). simpl. apply IH; [lia | assumption].
Qed.

Lemma flat_map_filter_omap {A C : Type} (P : A -> Prop) `{forall a, Decision (P a)}
  (f : A -> option C) (l : list A) :
  flat_map (fun a => if bool_decide (P a) then option_list (f a) else []) l
  = omap f (filter P l).
Proof.
  induction l as [|x l IH]; simpl; [reflexivity|].
  rewrite filter_cons. rewrite IH. case_bool_decide.
  - rewrite decide_True by assumption. simpl. destruct (f x); reflexivity.
  - rewrite decide_False by assumption. reflexivity.
Qed.

Lemma contributions_loop {F : Type} (grad_out : tensor F) (idx : tensor Z)
  (B npoint C b c n : nat) :
  b < B -> c < C ->
  flat_map (contributions grad_out idx b c n) (indices [B; npoint; C])
  = omap (fun j => get grad_out [b; c; j]) (referencing idx b npoint n).
Proof.
  intros Hb Hc. unfold referencing.
  rewrite flat_map_indices, (flat_map_single _ 0 B b); [|lia|].
  - rewrite flat_map_indices. rewrite <- flat_map_filter_omap.
    apply flat_map_ext. intros j.
    rewrite flat_map_indices, (flat_map_single _ 0 C c); [|lia|].
    + simpl. rewrite app_nil_r.
      case_bool_decide as H1; case_bool_decide as H2; try reflexivity;
        exfalso; tauto.
    + intros c' Hc'. simpl. rewrite bool_decide_false by tauto. reflexivity.
  - intros b' Hb'. rewrite flat_map_indices. apply flat_map_nil. intros j _.
    rewrite flat_map_indices. apply flat_map_nil. intros c' _. simpl.
    rewrite bool_decide_false by tauto. reflexivity.
Qed.

Section ScatterAdd.

Context {F : Type} `{Dtype F}.
Variables (grad_out : tensor F) (idx : tensor Z) (B C N npoint : nat).
Hypothesis idx_valid : indices_valid B npoint N idx.
Hypothesis grad_out_defined :
  forall b c j, b < B -> c < C -> j < npoint -> is_Some (get grad_out [b; c; j]).

Lemma scatter_add_step_spec (gf : tensor F) (b j c : nat) :
  well_formed gf -> size gf = [B; C; N] -> b < B -> j < npoint -> c < C ->
  exists n g old gf',
    get idx [b; j] = Some (Z.of_nat n) /\ n < N
    /\ get grad_out [b; c; j] = Some g
    /\ get gf [b; c; n] = Some old
    /\ scatter_add_step grad_out idx gf [b; j; c] = Ok gf'
    /\ well_formed gf' /\ size gf' = [B; C; N]
    /\ get gf' [b; c; n] = Some (fadd old g)
    /\ forall ix, ix <> [b; c; n] -> get gf' ix = get gf ix.
Proof.
  intros Hwf Hsz Hb Hj Hc.
  destruct (idx_valid b j Hb Hj) as (n & Hn & Hlt).
  destruct (grad_out_defined b c j Hb Hc Hj) as [g Hg].
  destruct (get_is_Some gf [b; c; n] Hwf) as [old Hold].
  { rewrite Hsz. apply ravel3; assumption. }
  destruct (set gf [b; c; n] (fadd old g)) as [gf'|] eqn:Hset.
  - exists n, g, old, gf'.
    destruct (set_shape _ _ _ _ Hset) as (Hs1 & Hs2 & Hs3).
    repeat split; try assumption.
    + unfold scatter_add_step. rewrite Hn, Hg, Nat2Z.id, Hold, Hset. reflexivity.
    + unfold well_formed in *. rewrite Hs1, Hs2, Hs3. assumption.
    + congruence.
    + eapply get_set_eq; eassumption.
    + intros ix Hne. eapply get_set_ne; [eassumption | congruence].
  - exfalso. unfold set, get in *.
    destruct (ravel (size gf) [b; c; n]); discriminate.
Qed.

Lemma scatter_loop_spec (L : list (list nat)) :
  (forall ix, In ix L ->
              exists b j c, ix = [b; j; c] /\ b < B /\ j < npoint /\ c < C) ->
  forall gf0, well_formed gf0 -> size gf0 = [B; C; N] ->
  exists gf,
    rfold (scatter_add_step grad_out idx) L gf0 = Ok gf
    /\ well_formed gf /\ size gf = [B; C; N]
    /\ forall b c n v0,
         get gf0 [b; c; n] = Some v0 ->
         get gf [b; c; n]
         = Some (foldl fadd v0 (flat_map (contributions grad_out idx b c n) L)).
Proof.
  induction L as [|ix L IH]; intros HL gf0 Hwf Hsz.
  - exists gf0. simpl. auto.
  - destruct (HL ix) as (b & j & c & -> & Hb & Hj & Hc); [left; reflexivity|].
    destruct (scatter_add_step_spec gf0 b j c Hwf Hsz Hb Hj Hc)
      as (n & g & old & gf1 & Hn & Hlt & Hg & Hold & Hstep & Hwf1 & Hsz1 & Heq & Hne).
    destruct (IH (fun ix' Hin => HL ix' (or_intror Hin)) gf1 Hwf1 Hsz1)
      as (gf & Hrun & Hwf' & Hsz' & Hval).
    exists gf. cbn [rfold]. rewrite Hstep. cbn [rbind].
    split; [exact Hrun|]. split; [exact Hwf'|]. split; [exact Hsz'|].
    intros b0 c0 n0 v0 Hv0. cbn [flat_map]. rewrite foldl_app.
    unfold contributions at 1.
    case_bool_decide as Hd.
    + destruct Hd as (-> & -> & Hnn). rewrite Hn in Hnn. injection Hnn as Hnn.
      apply Nat2Z.inj in Hnn. subst n0.
      rewrite Hg. simpl. apply Hval. rewrite Heq. congruence.
    + simpl. apply Hval. rewrite Hne; [assumption|].
      intros [= <- <- <-]. apply Hd. auto.
Qed.

End ScatterAdd.

Lemma foldl_replicate_iter {A : Type} (f : A -> A -> A) (one v : A) (k : nat) :
  foldl f v (replicate k one) = Nat.iter k (fun x => f x one) v.
Proof.
  revert v. induction k as [|k IH]; intros v; [reflexivity|].
  simpl replicate. simpl foldl. rewrite IH.
  symmetry. apply (Nat.iter_succ_r k (fun x => f x one) v).
Qed.

Lemma omap_const {A C : Type} (f : A -> option C) (l : list A) (v : C) :
  (forall a, In a l -> f a = Some v) -> omap f l = replicate (length l) v.
Proof.
  induction l as [|x l IH]; intros Hf; [reflexivity|].
  change (omap f (x :: l))
    with (match f x with Some y => y :: omap f l | None => omap f l end).
  rewrite (Hf x) by (left; reflexivity).
  rewrite IH by (intros a Ha; apply Hf; right; exact Ha). reflexivity.
Qed.

(** C1: for features of shape (B, C, N), an index of shape (B, M) whose
    entries lie in [[0, N)] and a gradient [grad_out] of shape (B, C, M),
    the forward pass returns and saves the index, and the backward pass on
    the saved context returns [(grad_features, None)] where [grad_features]
    has shape (B, C, N) and its entry [(b, c, n)] is the sum, started from
    zero, of [grad_out[b, c, j]] over all positions [j] with
    [index[b, j] = n], every one of them added; when [grad_out] is all ones,
    that entry is the number of such positions. *)
Theorem gather_backward_scatter_add {F : Type} `{Dtype F}
  (features grad_out : tensor F) (idx : tensor Z) (B C N M : nat) :
  well_formed features -> size features = [B; C; N] ->
  size idx = [B; M] -> indices_valid B M N idx ->
  well_formed grad_out -> size grad_out = [B; C; M] ->
  exists output ctx grad_features,
    GatherFunction.forward new_context features idx = Ok (output, ctx)
    /\ GatherFunction.backward ctx grad_out = Ok (Some grad_features, None)
    /\ size grad_features = [B; C; N]
    /\ (forall b c n, b < B -> c < C -> n < N ->
          get grad_features [b; c; n] = Some (accumulated grad_out idx b c n M))
    /\ ((forall b c j, b < B -> c < C -> j < M -> get grad_out [b; c; j] = Some fone) ->
        forall b c n, b < B -> c < C -> n < N ->
          get grad_features [b; c; n]
          = Some (count_scalar (length (referencing idx b M n)))).
Proof.
  intros Hwff Hszf Hszi Hvalid Hwfg Hszg.
  assert (Hfwd : exists output,
             gather_forward B C N M features idx = Ok output).
  { unfold gather_forward. rewrite (check_index_range_Ok _ _ _ _ Hvalid).
    apply tabulate_r_succeeds. intros ix Hix.
    apply ravel3_inv in Hix as (b & c & j & -> & Hb & Hc & Hj).
    destruct (Hvalid b j Hb Hj) as (n & Hn & Hlt). rewrite Hn, Nat2Z.id.
    destruct (get_is_Some features [b; c; n] Hwff) as [v Hv].
    { rewrite Hszf. apply ravel3; assumption. }
    rewrite Hv. eexists; reflexivity. }
  destruct Hfwd as [output Hfwd].
  assert (Hgd : forall b c j, b < B -> c < C -> j < M ->
                              is_Some (get grad_out [b; c; j])).
  { intros b c j Hb Hc Hj. apply get_is_Some; [assumption|].
    rewrite Hszg. apply ravel3; assumption. }
  destruct (scatter_loop_spec grad_out idx B C N M Hvalid Hgd
              (indices [B; M; C])
              (fun ix Hin => ravel3_inv _ _ _ _ (ravel_indices_In _ _ Hin))
              (zeros [B; C; N]) (well_formed_tabulate _ _) eq_refl)
    as (gf & Hrun & Hwf & Hsz & Hval).
  exists output, (Context [LongTensor idx] (Some C) (Some N) []), gf.
  assert (Hentry : forall b c n, b < B -> c < C -> n < N ->
            get gf [b; c; n] = Some (accumulated grad_out idx b c n M)).
  { intros b c n Hb Hc Hn. unfold accumulated.
    rewrite <- (contributions_loop grad_out idx B M C b c n Hb Hc).
    apply Hval. unfold zeros. apply get_full, ravel3; assumption. }
  split; [|split; [|split; [|split]]].
  - unfold GatherFunction.forward, contiguous, size2, size3.
    rewrite Hszi, Hszf. cbn [rbind]. rewrite Hfwd. reflexivity.
  - unfold GatherFunction.backward, contiguous, size2. cbn [saved_tensors ctx_C ctx_N attr].
    rewrite Hszi. cbn [rbind]. unfold gather_backward.
    rewrite (check_index_range_Ok _ _ _ _ Hvalid). cbn [rbind].
    rewrite Hrun. reflexivity.
  - exact Hsz.
  - exact Hentry.
  - intros Hones b c n Hb Hc Hn. rewrite (Hentry b c n Hb Hc Hn). f_equal.
    unfold accumulated, count_scalar.
    rewrite (omap_const _ _ fone).
    + apply foldl_replicate_iter.
    + intros j Hj. apply Hones; try assumption.
      unfold referencing in Hj. apply list_elem_of_In, list_elem_of_filter in Hj.
      destruct Hj as [_ Hj]. apply list_elem_of_In, in_seq in Hj. lia.
Qed.

Lemma gather_backward_scatter_add_witness :
  exists output ctx grad_features,
    GatherFunction.forward new_context features_123 idx_repeated = Ok (output, ctx)
    /\ GatherFunction.backward ctx grad_ones = Ok (Some grad_features, None)
    /\ size grad_features = [1; 2; 3]
    /\ (forall b c n, b < 1 -> c < 2 -> n < 3 ->
          get grad_features [b; c; n]
          = Some (accumulated grad_ones idx_repeated b c n 4))
    /\ ((forall b c j, b < 1 -> c < 2 -> j < 4 ->
           get grad_ones [b; c; j] = Some fone) ->
        forall b c n, b < 1 -> c < 2 -> n < 3 ->
          get grad_features [b; c; n]
          = Some (count_scalar (length (referencing idx_repeated b 4 n)))).
Proof.
  apply (gather_backward_scatter_add features_123 grad_ones idx_repeated 1 2 3 4).
  - unfold well_formed. simpl. lia.
  - reflexivity.
  - reflexivity.
  - intros b j Hb Hj. destruct b as [|b]; [|lia].
    destruct j as [|[|[|[|j]]]]; [exists 0 | exists 2 | exists 2 | exists 0 | lia];
      (split; [reflexivity | lia]).
  - unfold well_formed. simpl. lia.
  - reflexivity.
Defined.

(** ** The greedy selection of furthest-point sampling *)

Lemma argmax_from_Some (cands : list (nat * f32)) (x : nat * f32) :
  is_Some (argmax_from cands (Some x)).
Proof.
  revert x. induction cands as [|[p r] cs IH]; intros [q rq]; simpl.
  - eexists; reflexivity.
  - destruct (f32_ltb rq r); apply IH.
Qed.

Lemma argmax_from_elem (cands : list (nat * f32)) (best : option (nat * f32))
  (x : nat * f32) :
  argmax_from cands best = Some x -> x ∈ cands \/ best = Some x.
Proof.
  revert best. induction cands as [|[p r] cs IH]; intros best; simpl.
  - auto.
  - intros Hx. apply IH in Hx as [Hx|Hx].
    + left. right. exact Hx.
    + destruct best as [[q rq]|].
      * destruct (f32_ltb rq r).
        -- injection Hx as <-. left. left.
        -- right. exact Hx.
      * injection Hx as <-. left. left.
Qed.

Lemma argmax_unselected_Some (sel : list nat) (running : list f32) (nxt : nat) :
  argmax_unselected sel running = Some nxt ->
  (nxt ∉ sel) /\ nxt < length running.
Proof.
  unfold argmax_unselected. intros Hx.
  destruct (argmax_from _ None) as [[p r]|] eqn:E; [|discriminate].
  injection Hx as ->.
  apply argmax_from_elem in E as [E|E]; [|discriminate].
  apply list_elem_of_filter in E as [Hsel E].
  apply elem_of_lookup_imap in E as (i & y & [= -> ->] & Hi).
  split; [exact Hsel|]. eapply lookup_lt_Some; eassumption.
Qed.

Lemma argmax_unselected_is_Some (sel : list nat) (running : list f32) (p : nat) :
  p ∉ sel -> p < length running -> is_Some (argmax_unselected sel running).
Proof.
  intros Hsel Hlt. unfold argmax_unselected.
  destruct (lookup_lt_is_Some_2 running p Hlt) as [r Hr].
  assert (Hin : (p, r) ∈ filter (fun pr => fst pr ∉ sel) (imap pair running)).
  { apply list_elem_of_filter. split; [exact Hsel|].
    apply (elem_of_lookup_imap_2 pair _ _ _ Hr). }
  destruct (filter _ _) as [|[q rq] cs]; [inversion Hin|].
  simpl. destruct (argmax_from_Some cs (q, rq)) as [x ->]. eexists; reflexivity.
Qed.

Lemma filter_imap_ext (sel : list nat) (g : nat -> nat) (r1 r2 : list f32) :
  length r1 = length r2 ->
  (forall i, g i ∉ sel -> r1 !! i = r2 !! i) ->
  filter (fun pr : nat * f32 => fst pr ∉ sel) (imap (fun i x => (g i, x)) r1)
  = filter (fun pr : nat * f32 => fst pr ∉ sel) (imap (fun i x => (g i, x)) r2).
Proof.
  revert g r2. induction r1 as [|x r1 IH]; intros g [|y r2] Hlen Hagree;
    try discriminate; [reflexivity|].
  cbn [imap]. rewrite !filter_cons. cbn [fst].
  assert (Htl : filter (fun pr : nat * f32 => fst pr ∉ sel)
                       (imap ((fun i x => (g i, x)) ∘ S) r1)
                = filter (fun pr : nat * f32 => fst pr ∉ sel)
                         (imap ((fun i x => (g i, x)) ∘ S) r2)).
  { apply (IH (g ∘ S)).
    - simpl in Hlen. lia.
    - intros i Hi. apply (Hagree (S i)). exact Hi. }
  rewrite Htl. destruct (decide (g 0 ∉ sel)) as [Hd|Hd]; [|reflexivity].
  specialize (Hagree 0 Hd). simpl in Hagree. injection Hagree as ->. reflexivity.
Qed.

Lemma argmax_unselected_ext (sel : list nat) (r1 r2 : list f32) :
  length r1 = length r2 ->
  (forall p, p ∉ sel -> r1 !! p = r2 !! p) ->
  argmax_unselected sel r1 = argmax_unselected sel r2.
Proof.
  intros Hlen Hagree. unfold argmax_unselected.
  exact (f_equal (fun l => fst <$> argmax_from l None)
                 (filter_imap_ext sel (fun i => i) r1 r2 Hlen Hagree)).
Qed.

Lemma some_unselected (sel : list nat) (N : nat) :
  NoDup sel -> length sel < N -> exists p, p < N /\ p ∉ sel.
Proof.
  intros Hnd Hlen.
  destruct (decide (Forall (fun p => p ∈ sel) (seq 0 N))) as [Hall|Hnot].
  - exfalso.
    assert (Hsub : seq 0 N ⊆+ sel).
    { apply NoDup_submseteq; [apply NoDup_seq|].
      intros x Hx. rewrite Forall_forall in Hall. apply Hall, Hx. }
    apply submseteq_length in Hsub. rewrite length_seq in Hsub. lia.
  - apply not_Forall_Exists in Hnot; [|intros x; apply _].
    apply Exists_exists in Hnot as (p & Hp & Hnp).
    exists p. split; [|exact Hnp]. apply elem_of_seq in Hp. lia.
Qed.

Lemma length_update_running (pts : list point) (sel : list nat) (plast : point)
  (running : list f32) :
  length pts = length running ->
  length (update_running pts sel plast running) = length running.
Proof.
  intros Hlen. unfold update_running. rewrite length_imap, length_zip. lia.
Qed.

Lemma length_running_minima (pts : list point) (temp : list f32) (sel : list nat) :
  length pts = length temp -> length (running_minima pts temp sel) = length temp.
Proof.
  intros Hlen. unfold running_minima. rewrite length_imap, length_zip. lia.
Qed.

Lemma lookup_zip_eq {A B : Type} (l : list A) (k : list B) (i : nat) :
  zip l k !! i = match l !! i, k !! i with
                 | Some a, Some b => Some (a, b)
                 | _, _ => None
                 end.
Proof.
  revert k i. induction l as [|a l IH]; intros [|b k] [|i]; simpl; try reflexivity.
  - destruct (l !! i); reflexivity.
  - apply IH.
Qed.

Lemma running_minima_nil (pts : list point) (temp : list f32) :
  length pts = length temp -> running_minima pts temp [] = temp.
Proof.
  intros Hlen. apply list_eq. intros i. unfold running_minima.
  rewrite list_lookup_imap, lookup_zip_eq. simpl.
  destruct (temp !! i) as [t|] eqn:Ht.
  - destruct (lookup_lt_is_Some_2 pts i) as [q ->]; [|reflexivity].
    rewrite Hlen. eapply lookup_lt_Some; eassumption.
  - destruct (pts !! i); reflexivity.
Qed.

(** ** The order of binary32 values *)

Lemma f32_compare_key (a b : f32) (ka kb : Z * Z * Z) :
  f32_key a = Some ka -> f32_key b = Some kb ->
  (SFcompare a b = Some Lt /\ lex_lt ka kb)
  \/ (SFcompare a b = Some Eq /\ ka = kb)
  \/ (SFcompare a b = Some Gt /\ lex_lt kb ka).
Proof.
  unfold lex_lt.
  destruct a as [sa|sa| |sa ma ea], b as [sb|sb| |sb mb eb]; simpl;
    try discriminate; intros [= <-] [= <-];
    try (destruct sa; simpl; intuition lia);
    try (destruct sb; simpl; intuition lia);
    try (destruct sa, sb; simpl; intuition lia).
  destruct sa, sb; simpl; try (intuition lia);
    destruct (Z.compare_spec ea eb) as [->|He|He];
    try (intuition lia);
    change (Pos.compare_cont Eq ma mb) with (Pos.compare ma mb);
    destruct (Pos.compare_spec ma mb) as [->|Hm|Hm]; simpl;
    intuition lia.
Qed.

Lemma f32_compare_nan_l (a b : f32) : f32_key a = None -> SFcompare a b = None.
Proof. destruct a; simpl; try discriminate. reflexivity. Qed.

Lemma f32_compare_nan_r (a b : f32) : f32_key b = None -> SFcompare a b = None.
Proof. destruct b; simpl; try discriminate. destruct a; reflexivity. Qed.

Lemma f32_ltb_irrefl (a : f32) : f32_ltb a a = false.
Proof.
  unfold f32_ltb, SFltb. destruct (f32_key a) as [ka|] eqn:Ka.
  - destruct (f32_compare_key a a ka ka Ka Ka) as [[-> H]|[[-> _]|[-> H]]];
      try reflexivity.
    unfold lex_lt in H. lia.
  - rewrite (f32_compare_nan_l a a Ka). reflexivity.
Qed.

(** If [a < b], every [c] that is not above [a] is strictly below [b], or
    is NaN. *)
Lemma f32_ltb_leb_false (a b c : f32) :
  f32_ltb a b = true -> f32_ltb a c = false -> f32_leb b c = false.
Proof.
  unfold f32_ltb, f32_leb, SFltb, SFleb. intros Hab Hac.
  destruct (f32_key a) as [ka|] eqn:Ka;
    [|rewrite (f32_compare_nan_l a b Ka) in Hab; discriminate].
  destruct (f32_key b) as [kb|] eqn:Kb;
    [|rewrite (f32_compare_nan_r a b Kb) in Hab; discriminate].
  destruct (f32_key c) as [kc|] eqn:Kc;
    [|rewrite (f32_compare_nan_r b c Kc); reflexivity].
  destruct (f32_compare_key a b ka kb Ka Kb) as [[E1 H1]|[[E1 H1]|[E1 H1]]];
    rewrite E1 in Hab; try discriminate.
  destruct (f32_compare_key a c ka kc Ka Kc) as [[E2 H2]|[[E2 H2]|[E2 H2]]];
    rewrite E2 in Hac; try discriminate;
    destruct (f32_compare_key b c kb kc Kb Kc) as [[E3 H3]|[[E3 H3]|[E3 H3]]];
    rewrite E3; try reflexivity; exfalso; subst;
    unfold lex_lt in *; lia.
Qed.

Lemma f32_leb_false_ltb (a b : f32) : f32_leb a b = false -> f32_ltb a b = false.
Proof.
  unfold f32_ltb, f32_leb, SFltb, SFleb.
  destruct (SFcompare a b) as [[]|]; congruence.
Qed.

Lemma f32_ltb_trans (a b c : f32) :
  f32_ltb a b = true -> f32_ltb b c = true -> f32_ltb a c = true.
Proof.
  intros Hab Hbc. destruct (f32_ltb a c) eqn:Hac; [reflexivity|].
  pose proof (f32_leb_false_ltb b c (f32_ltb_leb_false a b c Hab Hac)) as H.
  congruence.
Qed.

(** The scan for the maximum: the point it returns is not below any
    unselected point, and is strictly above every unselected point of
    smaller index that is not NaN. *)
Lemma argmax_scan (sel : list nat) (running : list f32) :
  forall (g : nat -> nat) (best : option (nat * f32)) (p : nat) (v : f32),
    (forall i j, i < j -> g i < g j) ->
    (forall b vb i, best = Some (b, vb) -> b < g i) ->
    argmax_from (filter (fun pr : nat * f32 => fst pr ∉ sel)
                        (imap (fun i x => (g i, x)) running)) best
    = Some (p, v) ->
    (forall i w, g i ∉ sel -> running !! i = Some w ->
                 f32_ltb v w = false /\ (g i < p -> f32_leb v w = false))
    /\ (forall b vb, best = Some (b, vb) ->
                     (p, v) = (b, vb) \/ f32_ltb vb v = true).
Proof.
  induction running as [|x r IH]; intros g best p v Hmono Hbest Hres.
  - simpl in Hres. split.
    + intros i w _ Hi. discriminate.
    + intros b vb ->. left. congruence.
  - cbn [imap] in Hres. rewrite filter_cons in Hres. cbn [fst] in Hres.
    assert (Hmono' : forall i j, i < j -> (g ∘ S) i < (g ∘ S) j).
    { intros i j Hij. apply Hmono. lia. }
    destruct (decide (g 0 ∉ sel)) as [Hd|Hd].
    + cbn [argmax_from] in Hres.
      set (best' := match best with
                    | Some (q, rq) => if f32_ltb rq x then Some (g 0, x) else best
                    | None => Some (g 0, x)
                    end) in Hres.
      assert (Hbest' : forall b vb i, best' = Some (b, vb) -> b < (g ∘ S) i).
      { intros b vb i Hb. unfold best' in Hb.
        destruct best as [[q rq]|].
        - destruct (f32_ltb rq x).
          + injection Hb as <- <-. apply Hmono. lia.
          + injection Hb as <- <-. eapply Hbest. reflexivity.
        - injection Hb as <- <-. apply Hmono. lia. }
      destruct (IH (g ∘ S) best' p v Hmono' Hbest' Hres) as [Ha Hb].
      assert (Hhead : f32_ltb v x = false /\ (g 0 < p -> f32_leb v x = false)).
      { unfold best' in Hb. destruct best as [[q rq]|].
        - destruct (f32_ltb rq x) eqn:Hlt.
          + destruct (Hb _ _ eq_refl) as [[= -> ->]|Hxv].
            * split; [apply f32_ltb_irrefl | lia].
            * assert (f32_leb v x = false)
                by (eapply f32_ltb_leb_false; [exact Hxv | apply f32_ltb_irrefl]).
              split; [apply f32_leb_false_ltb; assumption | auto].
          + destruct (Hb _ _ eq_refl) as [[= -> ->]|Hqv].
            * split; [exact Hlt|]. intros Hgp.
              specialize (Hbest q rq 0 eq_refl). lia.
            * assert (f32_leb v x = false)
                by (eapply f32_ltb_leb_false; eassumption).
              split; [apply f32_leb_false_ltb; assumption | auto].
        - destruct (Hb _ _ eq_refl) as [[= -> ->]|Hxv].
          + split; [apply f32_ltb_irrefl | lia].
          + assert (f32_leb v x = false)
              by (eapply f32_ltb_leb_false; [exact Hxv | apply f32_ltb_irrefl]).
            split; [apply f32_leb_false_ltb; assumption | auto]. }
      split.
      * intros [|i] w Hsel Hi.
        -- injection Hi as <-. exact Hhead.
        -- apply (Ha i w Hsel Hi).
      * intros b vb ->. unfold best' in Hb. destruct (f32_ltb vb x) eqn:Hlt.
        -- destruct (Hb _ _ eq_refl) as [[= -> ->]|Hxv].
           ++ right. exact Hlt.
           ++ right. eapply f32_ltb_trans; eassumption.
        -- apply (Hb _ _ eq_refl).
    + destruct (IH (g ∘ S) best p v Hmono')
        as [Ha Hb].
      * intros b vb i Hb. eapply Hbest. exact Hb.
      * exact Hres.
      * split; [|exact Hb].
        intros [|i] w Hsel Hi; [contradiction|]. apply (Ha i w Hsel Hi).
Qed.

Lemma argmax_unselected_max (sel : list nat) (running : list f32) (nxt : nat) :
  argmax_unselected sel running = Some nxt ->
  exists v,
    running !! nxt = Some v
    /\ forall q w, q ∉ sel -> running !! q = Some w ->
                   f32_ltb v w = false /\ (q < nxt -> f32_leb v w = false).
Proof.
  unfold argmax_unselected. intros Hx.
  destruct (argmax_from _ None) as [[p v]|] eqn:E; [|discriminate].
  injection Hx as ->. exists v. split.
  - apply argmax_from_elem in E as [E|E]; [|discriminate].
    apply list_elem_of_filter in E as [_ E].
    apply elem_of_lookup_imap in E as (i & y & [= -> ->] & Hi). exact Hi.
  - destruct (argmax_scan sel running (fun i => i) None nxt v) as [Ha _].
    + intros i j Hij. exact Hij.
    + intros b vb i Hb. discriminate.
    + exact E.
    + exact Ha.
Qed.

Section Greedy.

Variables (pts : list point) (temp : list f32) (N : nat).
Hypothesis length_pts : length pts = N.
Hypothesis length_temp : length temp = N.

Lemma fps_step_spec (sel : list nat) (running : list f32) :
  fps_inv pts temp N sel running -> length sel < N ->
  exists nxt running',
    fps_step pts (sel, running) = (sel ++ [nxt], running')
    /\ greedy_next pts temp sel = Some nxt
    /\ fps_inv pts temp N (sel ++ [nxt]) running'.
Proof.
  intros (Hlen & Hnd & Hall & sel' & l & Hsel & Hrun) Hlt.
  assert (Hl : l < N).
  { rewrite Forall_forall in Hall. apply Hall. rewrite Hsel.
    apply elem_of_app. right. left. }
  destruct (lookup_lt_is_Some_2 pts l) as [plast Hplast]; [lia|].
  set (running' := update_running pts sel plast running).
  assert (Hlen' : length running' = N).
  { unfold running'. rewrite length_update_running; lia. }
  assert (Hagree : forall p, p ∉ sel ->
                             running' !! p = running_minima pts temp sel !! p).
  { intros p Hp. specialize (Hrun p Hp). revert Hrun.
    unfold running', update_running, running_minima.
    rewrite !list_lookup_imap, !lookup_zip_eq.
    destruct (pts !! p) as [q|] eqn:Hq; [|reflexivity].
    destruct (temp !! p) as [t|] eqn:Ht.
    - destruct (running !! p) as [r|]; [|discriminate].
      simpl. intros [= ->]. rewrite bool_decide_false by exact Hp.
      rewrite Hsel, foldl_app. simpl. rewrite Hplast. reflexivity.
    - apply lookup_ge_None in Ht.
      rewrite (proj2 (lookup_ge_None running p)) by lia. reflexivity. }
  assert (Hnext : argmax_unselected sel running' = greedy_next pts temp sel).
  { apply argmax_unselected_ext; [|exact Hagree].
    rewrite length_running_minima; lia. }
  destruct (some_unselected sel N Hnd Hlt) as (p & HpN & Hp).
  destruct (argmax_unselected_is_Some sel running' p Hp) as [nxt Hnxt]; [lia|].
  destruct (argmax_unselected_Some _ _ _ Hnxt) as [Hfresh HnxtN].
  exists nxt, running'. split; [|split].
  - unfold fps_step. rewrite Hsel at 1. rewrite last_snoc, Hplast.
    fold running'. rewrite Hnxt. reflexivity.
  - rewrite <- Hnext. exact Hnxt.
  - split; [exact Hlen'|]. split; [|split].
    + apply NoDup_app. split; [exact Hnd|]. split; [|apply NoDup_singleton].
      intros x Hx Hx'. apply list_elem_of_singleton in Hx'. subst x. contradiction.
    + apply Forall_app. split; [exact Hall|]. apply Forall_singleton. lia.
    + exists sel, nxt. split; [reflexivity|].
      intros q Hq. apply Hagree. intros Hin. apply Hq, elem_of_app. left. exact Hin.
Qed.

Lemma fps_state_spec (i : nat) :
  i < N ->
  fps_inv pts temp N (fst (fps_state pts temp i)) (snd (fps_state pts temp i))
  /\ length (fst (fps_state pts temp i)) = S i
  /\ fst (fps_state pts temp i) !! 0 = Some 0
  /\ (forall j, j <= i ->
        fst (fps_state pts temp j) = take (S j) (fst (fps_state pts temp i)))
  /\ (forall j, j < i ->
        greedy_next pts temp (take (S j) (fst (fps_state pts temp i)))
        = fst (fps_state pts temp i) !! S j).
Proof.
  induction i as [|i IH]; intros Hi.
  - unfold fps_state. simpl.
    split; [|split; [reflexivity|split; [reflexivity|split]]].
    + split; [exact length_temp|]. split; [apply NoDup_singleton|].
      split; [apply Forall_singleton; lia|].
      exists [], 0. split; [reflexivity|]. intros p _.
      rewrite running_minima_nil; [reflexivity | lia].
    + intros j Hj. replace j with 0 by lia. reflexivity.
    + intros j Hj. lia.
  - destruct IH as (Hinv & Hlen & Hhd & Hpre & Hgreedy); [lia|].
    assert (Hunfold : fps_state pts temp (S i)
                      = fps_step pts (fps_state pts temp i)) by reflexivity.
    destruct (fps_state pts temp i) as [sel running] eqn:Hst.
    cbn [fst snd] in *.
    destruct (fps_step_spec sel running Hinv) as (nxt & running' & Hstep & Hg & Hinv');
      [lia|].
    rewrite Hunfold, Hstep. cbn [fst snd].
    split; [exact Hinv'|]. split; [|split; [|split]].
    + rewrite length_app, Hlen. simpl. lia.
    + rewrite lookup_app_l by lia. exact Hhd.
    + intros j Hj. destruct (decide (j = S i)) as [->|Hne].
      * rewrite Hunfold, Hstep. cbn [fst].
        rewrite take_ge; [reflexivity|]. rewrite length_app, Hlen. simpl. lia.
      * rewrite take_app_le by lia. apply Hpre. lia.
    + intros j Hj. destruct (decide (j = i)) as [->|Hne].
      * rewrite take_app_length' by lia. rewrite Hg. symmetry.
        apply list_lookup_middle. lia.
      * rewrite take_app_le by lia. rewrite lookup_app_l by lia.
        apply Hgreedy. lia.
Qed.

Lemma fps_select_spec (m : nat) :
  m <= N ->
  length (fps_select pts temp m) = m
  /\ NoDup (fps_select pts temp m)
  /\ Forall (fun p => p < N) (fps_select pts temp m)
  /\ (0 < m -> fps_select pts temp m !! 0 = Some 0)
  /\ (forall j, j <= m ->
        fps_select pts temp j = take j (fps_select pts temp m))
  /\ (forall j, S j < m ->
        greedy_next pts temp (take (S j) (fps_select pts temp m))
        = fps_select pts temp m !! S j).
Proof.
  destruct m as [|m]; intros Hm.
  - simpl. split; [reflexivity|]. split; [apply NoDup_nil_2|].
    split; [apply Forall_nil_2|]. split; [lia|]. split.
    + intros j Hj. replace j with 0 by lia. reflexivity.
    + intros j Hj. lia.
  - destruct (fps_state_spec m) as (Hinv & Hlen & Hhd & Hpre & Hgreedy); [lia|].
    destruct Hinv as (_ & Hnd & Hall & _).
    change (fps_select pts temp (S m)) with (fst (fps_state pts temp m)).
    split; [exact Hlen|]. split; [exact Hnd|]. split; [exact Hall|].
    split; [intros _; exact Hhd|]. split.
    + intros [|j] Hj; [reflexivity|].
      change (fps_select pts temp (S j)) with (fst (fps_state pts temp j)).
      apply Hpre. lia.
    + intros j Hj. apply Hgreedy. lia.
Qed.

End Greedy.

(** ** Furthest-point sampling on tensors *)

Lemma read_points_Ok (xyz : tensor f32) (B N b : nat) :
  well_formed xyz -> size xyz = [B; N; 3] -> b < B ->
  exists pts, read_points xyz b N = Ok pts /\ length pts = N.
Proof.
  intros Hwf Hsz Hb.
  destruct (rmap_succeeds
              (fun i => do x <- getr xyz [b; i; 0];
                        do y <- getr xyz [b; i; 1];
                        do z <- getr xyz [b; i; 2];
                        Ok (x, y, z)) (seq 0 N)) as [pts Hpts].
  - intros i Hi. apply in_seq in Hi.
    assert (Hc : forall c, c < 3 -> exists v, getr xyz [b; i; c] = Ok v).
    { intros c Hc. destruct (get_is_Some xyz [b; i; c] Hwf) as [v Hv].
      - rewrite Hsz. apply ravel3; lia.
      - exists v. apply getr_Ok, Hv. }
    destruct (Hc 0) as [x ->]; [lia|]. destruct (Hc 1) as [y ->]; [lia|].
    destruct (Hc 2) as [z ->]; [lia|]. eexists; reflexivity.
  - exists pts. split; [exact Hpts|].
    pose proof (rmap_Ok_length _ _ _ Hpts) as Hl.
    rewrite length_seq in Hl. exact Hl.
Qed.

Lemma read_row_temp_init (B N b : nat) :
  b < B ->
  read_row (FurthestPointSampling.temp_init B N) b N = Ok (replicate N f32_1e10).
Proof.
  intros Hb. unfold read_row, FurthestPointSampling.temp_init.
  replace (replicate N f32_1e10) with (replicate (length (seq 0 N)) f32_1e10)
    by (rewrite length_seq; reflexivity).
  apply rmap_const.
  intros a Ha. apply in_seq in Ha. apply getr_Ok, get_full, ravel2; lia.
Qed.

Lemma index_row_eq (idx : tensor Z) (b m : nat) (sel : list nat) :
  length sel = m ->
  (forall j, j < m -> get idx [b; j] = Z.of_nat <$> sel !! j) ->
  index_row idx b m = map (fun p => Some (Z.of_nat p)) sel.
Proof.
  intros Hlen Hget. unfold index_row. apply list_eq. intros j.
  rewrite !list_lookup_fmap.
  destruct (decide (j < m)) as [Hj|Hj].
  - rewrite lookup_seq_lt by exact Hj. simpl. rewrite (Hget j Hj).
    destruct (lookup_lt_is_Some_2 sel j) as [v ->]; [lia | reflexivity].
  - rewrite lookup_seq_ge by lia.
    rewrite (proj2 (lookup_ge_None sel j)) by lia. reflexivity.
Qed.

Lemma furthest_sampling_Ok (xyz : tensor f32) (B N m : nat) :
  well_formed xyz -> size xyz = [B; N; 3] -> m <= N ->
  exists idx,
    furthest_sampling B N m xyz (FurthestPointSampling.temp_init B N) = Ok idx
    /\ size idx = [B; m] /\ well_formed idx
    /\ forall b, b < B ->
         exists pts,
           read_points xyz b N = Ok pts /\ length pts = N
           /\ index_row idx b m
              = map (fun p => Some (Z.of_nat p))
                    (fps_select pts (replicate N f32_1e10) m).
Proof.
  intros Hwf Hsz Hm. unfold furthest_sampling.
  rewrite bool_decide_true by exact Hsz. cbn [negb].
  destruct (Nat.ltb_spec N m) as [?|_]; [lia|].
  set (row := fun b => do pts <- read_points xyz b N;
                       do tmp <- read_row (FurthestPointSampling.temp_init B N) b N;
                       Ok (fps_select pts tmp m)).
  destruct (rmap_succeeds row (seq 0 B)) as [rows Hrows].
  { intros b Hb. apply in_seq in Hb. unfold row.
    destruct (read_points_Ok xyz B N b Hwf Hsz) as (pts & -> & _); [lia|].
    rewrite read_row_temp_init by lia. eexists; reflexivity. }
  rewrite Hrows. cbn [rbind]. eexists. split; [reflexivity|].
  split; [reflexivity|]. split; [apply well_formed_tabulate|].
  intros b Hb.
  destruct (read_points_Ok xyz B N b Hwf Hsz Hb) as (pts & Hpts & Hlen).
  exists pts. split; [exact Hpts|]. split; [exact Hlen|].
  destruct (rmap_Ok_lookup row (seq 0 B) rows b b Hrows) as (sel & Hsel & Hrow).
  { apply lookup_seq_lt. exact Hb. }
  unfold row in Hrow. rewrite Hpts, read_row_temp_init in Hrow by exact Hb.
  injection Hrow as Hrow.
  destruct (fps_select_spec pts (replicate N f32_1e10) N Hlen
              (length_replicate _ _) m Hm) as (Hlsel & _).
  apply index_row_eq; [exact Hlsel|].
  intros j Hj. rewrite get_tabulate.
  destruct (ravel2 B m b j Hb Hj) as [pos ->].
  rewrite (nth_lookup_Some rows b [] sel Hsel), <- Hrow.
  destruct (lookup_lt_is_Some_2 (fps_select pts (replicate N f32_1e10) m) j)
    as [v Hv]; [lia|].
  rewrite Hv. simpl. rewrite (nth_lookup_Some _ j 0 v Hv). reflexivity.
Qed.

Lemma FurthestPointSampling_apply_Ok (xyz : tensor f32) (B N m : nat) :
  well_formed xyz -> size xyz = [B; N; 3] -> m <= N ->
  exists idx,
    FurthestPointSampling.apply xyz m = Ok idx
    /\ FurthestPointSampling.forward new_context xyz m
       = Ok (idx, mark_non_differentiable new_context [LongTensor idx])
    /\ size idx = [B; m] /\ well_formed idx
    /\ forall b, b < B ->
         exists pts,
           read_points xyz b N = Ok pts /\ length pts = N
           /\ index_row idx b m
              = map (fun p => Some (Z.of_nat p))
                    (fps_select pts (replicate N f32_1e10) m).
Proof.
  intros Hwf Hsz Hm.
  destruct (furthest_sampling_Ok xyz B N m Hwf Hsz Hm) as (idx & Hk & Hrest).
  exists idx.
  assert (Hf : FurthestPointSampling.forward new_context xyz m
               = Ok (idx, mark_non_differentiable new_context [LongTensor idx])).
  { unfold FurthestPointSampling.forward, size3. rewrite Hsz. cbn [rbind].
    rewrite Hk. reflexivity. }
  split; [|split; [exact Hf | exact Hrest]].
  unfold FurthestPointSampling.apply. rewrite Hf. reflexivity.
Qed.




(** ** Layout changes and the forward pass of the gather *)

Lemma transpose21_Ok {A : Type} (t : tensor A) (a b c : nat) :
  well_formed t -> size t = [a; b; c] ->
  exists t',
    transpose21 t = Ok t' /\ size t' = [a; c; b] /\ well_formed t'
    /\ forall i j k, i < a -> j < c -> k < b -> get t' [i; j; k] = get t [i; k; j].
Proof.
  intros Hwf Hsz. unfold transpose21. rewrite Hsz.
  set (f := fun ix : list nat => match ix with
                                 | [i; j; k] => getr t [i; k; j]
                                 | _ => Raise (IndexError "rank")
                                 end).
  destruct (tabulate_r_succeeds [a; c; b] f) as [t' Ht'].
  { intros ix Hix. apply ravel3_inv in Hix as (i & j & k & -> & Hi & Hj & Hk).
    destruct (get_is_Some t [i; k; j] Hwf) as [v Hv].
    - rewrite Hsz. apply ravel3; assumption.
    - exists v. apply getr_Ok, Hv. }
  exists t'. split; [exact Ht'|].
  destruct (tabulate_r_Ok _ _ _ Ht') as (Hs & _ & Hwf' & Hget).
  split; [exact Hs|]. split; [exact Hwf'|].
  intros i j k Hi Hj Hk.
  destruct (Hget [i; j; k] (ravel3 _ _ _ _ _ _ Hi Hj Hk)) as (v & Hf & ->).
  symmetry. apply getr_Ok, Hf.
Qed.

Lemma gather_points_Ok {F : Type} (features : tensor F) (idx : tensor Z)
  (B C N M : nat) :
  well_formed features -> size features = [B; C; N] ->
  size idx = [B; M] -> indices_valid B M N idx ->
  exists output,
    gather_points features idx = Ok output
    /\ size output = [B; C; M] /\ well_formed output
    /\ forall b c j n, b < B -> c < C -> j < M ->
         get idx [b; j] = Some (Z.of_nat n) ->
         get output [b; c; j] = get features [b; c; n].
Proof.
  intros Hwf Hsz Hszi Hvalid.
  set (f := fun ix : list nat =>
              match ix with
              | [b; c; j] =>
                  match get idx [b; j] with
                  | Some n =>
                      match get features [b; c; Z.to_nat n] with
                      | Some v => Ok v
                      | None => Raise ShapeMismatchError
                      end
                  | None => Raise ShapeMismatchError
                  end
              | _ => Raise ShapeMismatchError
              end).
  destruct (tabulate_r_succeeds [B; C; M] f) as [output Hout].
  { intros ix Hix. apply ravel3_inv in Hix as (b & c & j & -> & Hb & Hc & Hj).
    destruct (Hvalid b j Hb Hj) as (n & Hn & Hlt). unfold f.
    rewrite Hn, Nat2Z.id.
    destruct (get_is_Some features [b; c; n] Hwf) as [v ->].
    - rewrite Hsz. apply ravel3; assumption.
    - eexists; reflexivity. }
  exists output.
  destruct (tabulate_r_Ok _ _ _ Hout) as (Hs & _ & Hwf' & Hget).
  split; [|split; [exact Hs | split; [exact Hwf'|]]].
  - unfold gather_points, GatherFunction.apply, GatherFunction.forward,
      contiguous, size2, size3.
    rewrite Hszi, Hsz. cbn [rbind]. unfold gather_forward.
    rewrite (check_index_range_Ok _ _ _ _ Hvalid). cbn [rbind].
    fold f. rewrite Hout. reflexivity.
  - intros b c j n Hb Hc Hj Hn.
    destruct (Hget [b; c; j] (ravel3 _ _ _ _ _ _ Hb Hc Hj)) as (v & Hf & ->).
    unfold f in Hf. rewrite Hn, Nat2Z.id in Hf.
    destruct (get features [b; c; n]); [congruence | discriminate].
Qed.

Lemma index_row_lookup (idx : tensor Z) (b m j : nat) (sel : list nat) :
  index_row idx b m = map (fun p => Some (Z.of_nat p)) sel ->
  j < m -> exists p, sel !! j = Some p /\ get idx [b; j] = Some (Z.of_nat p).
Proof.
  intros Hrow Hj.
  assert (H : index_row idx b m !! j = Some (get idx [b; j])).
  { unfold index_row. rewrite list_lookup_fmap, lookup_seq_lt by exact Hj.
    reflexivity. }
  rewrite Hrow, list_lookup_fmap in H.
  destruct (sel !! j) as [p|]; [|discriminate].
  exists p. split; [reflexivity|]. injection H as H. symmetry. exact H.
Qed.

Lemma fps_indices_valid (xyz : tensor f32) (B N m : nat) (idx : tensor Z) :
  well_formed xyz -> size xyz = [B; N; 3] -> m <= N ->
  FurthestPointSampling.apply xyz m = Ok idx ->
  indices_valid B m N idx.
Proof.
  intros Hwf Hsz Hm Happ.
  destruct (FurthestPointSampling_apply_Ok xyz B N m Hwf Hsz Hm)
    as (idx' & Happ' & _ & _ & _ & Hrows).
  rewrite Happ in Happ'. injection Happ' as <-.
  intros b j Hb Hj. destruct (Hrows b Hb) as (pts & _ & Hlen & Hrow).
  destruct (index_row_lookup idx b m j _ Hrow Hj) as (p & Hp & Hget).
  exists p. split; [exact Hget|].
  destruct (fps_select_spec pts (replicate N f32_1e10) N Hlen
              (length_replicate _ _) m Hm) as (_ & _ & Hall & _).
  rewrite Forall_forall in Hall. apply Hall.
  apply list_elem_of_lookup. exists j. exact Hp.
Qed.

(** ** The public sampling wrapper *)

Lemma to_channel_last_Ok {A : Type} (NCHW : bool) (t : tensor A) (B N d : nat) :
  well_formed t -> size t = layout_size NCHW B N d ->
  exists t',
    to_channel_last NCHW t = Ok t' /\ size t' = [B; N; d] /\ well_formed t'
    /\ forall b n c, b < B -> n < N -> c < d ->
         get t' [b; n; c] = get t (layout_ix NCHW b n c).
Proof.
  intros Hwf Hsz. destruct NCHW; simpl in *.
  - destruct (transpose21_Ok t B d N Hwf Hsz) as (t' & Ht & Hs & Hwf' & Hget).
    exists t'. auto.
  - exists t. auto.
Qed.

Lemma furthest_point_sample_Ok (xyz : tensor f32) (B N m : nat) (NCHW : bool) :
  well_formed xyz -> size xyz = layout_size NCHW B N 3 -> m <= N ->
  exists xyz_cl idx sampled_pc,
    to_channel_last NCHW xyz = Ok xyz_cl
    /\ well_formed xyz_cl /\ size xyz_cl = [B; N; 3]
    /\ FurthestPointSampling.apply xyz_cl m = Ok idx
    /\ furthest_point_sample xyz m NCHW = Ok (idx, sampled_pc)
    /\ size idx = [B; m]
    /\ size sampled_pc = layout_size NCHW B m 3
    /\ forall b j c, b < B -> j < m -> c < 3 ->
         exists n, get idx [b; j] = Some (Z.of_nat n) /\ n < N
                   /\ get sampled_pc (layout_ix NCHW b j c)
                      = get xyz (layout_ix NCHW b n c).
Proof.
  intros Hwf Hsz Hm.
  destruct (to_channel_last_Ok NCHW xyz B N 3 Hwf Hsz)
    as (xyz_cl & Hcl & Hs_cl & Hwf_cl & Hget_cl).
  destruct (FurthestPointSampling_apply_Ok xyz_cl B N m Hwf_cl Hs_cl Hm)
    as (idx & Happ & _ & Hs_idx & _ & _).
  pose proof (fps_indices_valid xyz_cl B N m idx Hwf_cl Hs_cl Hm Happ) as Hvalid.
  destruct (transpose21_Ok xyz_cl B N 3 Hwf_cl Hs_cl)
    as (xyz_t & Ht & Hs_t & Hwf_t & Hget_t).
  destruct (gather_points_Ok xyz_t idx B 3 N m Hwf_t Hs_t Hs_idx Hvalid)
    as (out & Hgather & Hs_out & Hwf_out & Hget_out).
  destruct (transpose21_Ok out B 3 m Hwf_out Hs_out)
    as (spc & Hspc & Hs_spc & _ & Hget_spc).
  assert (Hrun : forall final,
             (if negb NCHW then transpose21 out else Ok out) = Ok final ->
             furthest_point_sample xyz m NCHW = Ok (idx, final)).
  { intros final Hfinal. unfold furthest_point_sample, dim.
    replace (length (size xyz)) with 3 by (rewrite Hsz; destruct NCHW; reflexivity).
    cbn [Nat.eqb assert rbind].
    change (if NCHW then transpose21 xyz else Ok xyz) with (to_channel_last NCHW xyz).
    rewrite Hcl. cbn [rbind]. unfold size_at. rewrite Hs_cl.
    cbn [lookup list_lookup rbind Nat.eqb assert].
    rewrite Happ. cbn [rbind]. rewrite Ht. cbn [rbind]. rewrite Hgather.
    cbn [rbind]. rewrite Hfinal. reflexivity. }
  destruct NCHW.
  - (* channel-first: the gathered tensor is returned as it is *)
    exists xyz_cl, idx, out.
    repeat (split; [first [assumption | apply Hrun; reflexivity]|]).
    intros b j c Hb Hj Hc. destruct (Hvalid b j Hb Hj) as (n & Hn & Hlt).
    exists n. split; [exact Hn|]. split; [exact Hlt|]. simpl.
    rewrite (Hget_out b c j n Hb Hc Hj Hn), (Hget_t b c n Hb Hc Hlt).
    apply (Hget_cl b n c Hb Hlt Hc).
  - (* channel-last: the gathered tensor is transposed back *)
    exists xyz_cl, idx, spc.
    repeat (split; [first [assumption | apply Hrun; exact Hspc]|]).
    intros b j c Hb Hj Hc. destruct (Hvalid b j Hb Hj) as (n & Hn & Hlt).
    exists n. split; [exact Hn|]. split; [exact Hlt|]. simpl.
    injection Hcl as <-.
    rewrite (Hget_spc b j c Hb Hj Hc).
    rewrite (Hget_out b c j n Hb Hc Hj Hn). apply (Hget_t b c n Hb Hc Hlt).
Qed.



(** C5, as stated, fails: on points whose last axis is of size 2,
    [furthest_point_sample] raises the [AssertionError] of its own check,
    not [InvalidShapeError]. *)
Lemma furthest_point_sample_asserts :
  furthest_point_sample planar_points 1 false
  = Raise (AssertionError "furthest sampling is implemented for 3D points")
  /\ furthest_point_sample planar_points 1 false <> Raise InvalidShapeError.
Proof.
  assert (Hrun : furthest_point_sample planar_points 1 false
                 = Raise (AssertionError "furthest sampling is implemented for 3D points"))
    by (vm_compute; reflexivity).
  split; [exact Hrun|]. rewrite Hrun. discriminate.
Qed.

(** C5, amended: on a batch of [N] points with [d] coordinates each, in
    either layout: when [d = 3] and [m > N], sampling fails with
    [InsufficientPointsError], in the wrapper as in the sampler itself; when
    [d <> 3], the sampler fails with [InvalidShapeError] and the wrapper fails
    before it, with the [AssertionError] of its check that the points are
    3-D; when [d = 3] and [m = N], the wrapper succeeds and the row of every
    batch element is a permutation of 0, ..., N - 1. *)
Theorem furthest_point_sample_errors (xyz : tensor f32) (B N d m : nat)
  (NCHW : bool) :
  well_formed xyz -> size xyz = layout_size NCHW B N d ->
  exists xyz_cl,
    to_channel_last NCHW xyz = Ok xyz_cl
    /\ (d = 3 -> N < m ->
        FurthestPointSampling.apply xyz_cl m = Raise InsufficientPointsError
        /\ furthest_point_sample xyz m NCHW = Raise InsufficientPointsError)
    /\ (d <> 3 ->
        FurthestPointSampling.apply xyz_cl m = Raise InvalidShapeError
        /\ furthest_point_sample xyz m NCHW
           = Raise (AssertionError "furthest sampling is implemented for 3D points"))
    /\ (d = 3 -> m = N ->
        exists idx sampled_pc,
          furthest_point_sample xyz m NCHW = Ok (idx, sampled_pc)
          /\ forall b, b < B ->
               exists sel, index_row idx b N = map (fun p => Some (Z.of_nat p)) sel
                           /\ sel ≡ₚ seq 0 N).
Proof.
  intros Hwf Hsz.
  destruct (to_channel_last_Ok NCHW xyz B N d Hwf Hsz)
    as (xyz_cl & Hcl & Hs_cl & Hwf_cl & _).
  exists xyz_cl. split; [exact Hcl|].
  assert (Hprefix :
             furthest_point_sample xyz m NCHW
             = do _ <- assert (d =? 3) "furthest sampling is implemented for 3D points";
               do idx <- FurthestPointSampling.apply xyz_cl m;
               do xyz_t <- transpose21 xyz_cl;
               do sampled_pc <- gather_points xyz_t idx;
               do sampled_pc <- (if negb NCHW then transpose21 sampled_pc
                                 else Ok sampled_pc);
               Ok (idx, sampled_pc)).
  { unfold furthest_point_sample, dim.
    replace (length (size xyz)) with 3 by (rewrite Hsz; destruct NCHW; reflexivity).
    cbn [Nat.eqb assert rbind].
    change (if NCHW then transpose21 xyz else Ok xyz) with (to_channel_last NCHW xyz).
    rewrite Hcl. cbn [rbind]. unfold size_at. rewrite Hs_cl. reflexivity. }
  assert (Hkernel : FurthestPointSampling.apply xyz_cl m
                    = do idx <- furthest_sampling B N m xyz_cl
                                  (FurthestPointSampling.temp_init B N);
                      Ok idx).
  { unfold FurthestPointSampling.apply, FurthestPointSampling.forward, size3.
    rewrite Hs_cl. cbn [rbind].
    destruct (furthest_sampling B N m xyz_cl _); reflexivity. }
  split; [|split].
  - intros -> Hlt.
    assert (Hsampler : FurthestPointSampling.apply xyz_cl m
                       = Raise InsufficientPointsError).
    { rewrite Hkernel. unfold furthest_sampling.
      rewrite bool_decide_true by exact Hs_cl. cbn [negb].
      destruct (Nat.ltb_spec N m) as [_|?]; [reflexivity | lia]. }
    split; [exact Hsampler|]. rewrite Hprefix, Hsampler. reflexivity.
  - intros Hd. split.
    + rewrite Hkernel. unfold furthest_sampling.
      rewrite bool_decide_false; [reflexivity|].
      rewrite Hs_cl. intros [= ->]. contradiction.
    + rewrite Hprefix.
      destruct (Nat.eqb_spec d 3) as [?|_]; [contradiction | reflexivity].
  - intros -> ->.
    destruct (furthest_point_sample_Ok xyz B N N NCHW Hwf Hsz (le_n N))
      as (xyz_cl' & idx & spc & Hcl' & _ & _ & Happ & Hrun & _).
    rewrite Hcl in Hcl'. injection Hcl' as <-.
    exists idx, spc. split; [exact Hrun|].
    intros b Hb.
    destruct (FurthestPointSampling_apply_Ok xyz_cl B N N Hwf_cl Hs_cl (le_n N))
      as (idx' & Happ' & _ & _ & _ & Hrows).
    rewrite Happ in Happ'. injection Happ' as <-.
    destruct (Hrows b Hb) as (pts & _ & Hlen & Hrow).
    exists (fps_select pts (replicate N f32_1e10) N). split; [exact Hrow|].
    destruct (fps_select_spec pts (replicate N f32_1e10) N Hlen
                (length_replicate _ _) N (le_n N)) as (Hlsel & Hnd & Hall & _).
    apply submseteq_length_Permutation.
    + apply NoDup_submseteq; [exact Hnd|]. intros x Hx.
      rewrite Forall_forall in Hall. apply elem_of_seq. specialize (Hall x Hx). lia.
    + rewrite length_seq, Hlsel. lia.
Qed.

Lemma furthest_point_sample_errors_witness :
  (FurthestPointSampling.apply line5 6 = Raise InsufficientPointsError
   /\ furthest_point_sample line5 6 false = Raise InsufficientPointsError)
  /\ (FurthestPointSampling.apply planar_points 1 = Raise InvalidShapeError
      /\ furthest_point_sample planar_points 1 false
         = Raise (AssertionError "furthest sampling is implemented for 3D points"))
  /\ exists idx sampled_pc,
       furthest_point_sample line5 5 false = Ok (idx, sampled_pc)
       /\ forall b, b < 1 ->
            exists sel, index_row idx b 5 = map (fun p => Some (Z.of_nat p)) sel
                        /\ sel ≡ₚ seq 0 5.
Proof.
  assert (Hwf5 : well_formed line5) by (unfold well_formed; simpl; lia).
  assert (Hwf2 : well_formed planar_points) by (unfold well_formed; simpl; lia).
  split; [|split].
  - destruct (furthest_point_sample_errors line5 1 5 3 6 false Hwf5 eq_refl)
      as (xyz_cl & [= <-] & H1 & _ & _).
    apply H1; [reflexivity | lia].
  - destruct (furthest_point_sample_errors planar_points 1 2 2 1 false Hwf2 eq_refl)
      as (xyz_cl & [= <-] & _ & H2 & _).
    apply H2. lia.
  - destruct (furthest_point_sample_errors line5 1 5 3 5 false Hwf5 eq_refl)
      as (xyz_cl & _ & _ & _ & H3).
    apply H3; reflexivity.
Defined.

(** ** The nearest-neighbour search *)

Lemma select_Ok {A : Type} (t : tensor A) (i d : nat) (sz : list nat) :
  size t = d :: sz -> i < d ->
  select t i = Ok (Tensor (storage t) (storage_offset t + i * numel sz) sz).
Proof.
  intros Hsz Hi. unfold select. rewrite Hsz.
  destruct (Nat.ltb_spec i d); [reflexivity | lia].
Qed.

(** The search of one batch element reads both storages from their start:
    the storage offsets of the two views play no part. *)
Lemma search_index_pytorch_eq {F : Type} (faiss : flat_index F)
  (s s' : list F) (o o' N M C k : nat) :
  search_index_pytorch faiss (Tensor s o [N; C]) (Tensor s' o' [M; C]) k None None
  = do '(D, I_) <- faiss C N (take (N * C) s) M (take (M * C) s') k;
    Ok (Tensor D 0 [M; k], Tensor I_ 0 [M; k]).
Proof.
  unfold search_index_pytorch, size_last, size_at, size2, storage_data_ptr.
  cbn [size storage last lookup list_lookup rbind assert is_contiguous
       output_buffer written].
  rewrite Nat.eqb_refl. reflexivity.
Qed.

Lemma rmap_same {A B : Type} (f : A -> result B) (l : list A) (r : result B) :
  l <> [] -> (forall a, In a l -> f a = r) ->
  rmap f l = do b <- r; Ok (replicate (length l) b).
Proof.
  intros Hne Hf. destruct r as [b|e].
  - apply rmap_const. exact Hf.
  - destruct l as [|a l]; [contradiction|]. simpl.
    rewrite (Hf a) by (left; reflexivity). reflexivity.
Qed.

Lemma stack_replicate {A : Type} (t : tensor A) (n : nat) :
  0 < n ->
  stack (replicate n t)
  = Ok (Tensor (concat (replicate n (elements t))) 0 (n :: size t)).
Proof.
  intros Hn. destruct n as [|n]; [lia|].
  assert (Hall : forallb (fun t' => bool_decide (size t' = size t))
                         (replicate (S n) t) = true).
  { apply forallb_forall. intros x Hx.
    apply list_elem_of_In, elem_of_replicate in Hx as [-> _].
    apply bool_decide_eq_true. reflexivity. }
  assert (Hmap : map elements (replicate (S n) t) = replicate (S n) (elements t)).
  { apply (fmap_replicate elements). }
  cbn [replicate] in *. unfold stack. rewrite Hall, Hmap.
  cbn [length]. rewrite length_replicate. reflexivity.
Qed.

Lemma KNN_forward_eq {F : Type} (faiss : flat_index F) (ctx : context F)
  (k : nat) (query points : tensor F) (B N M C : nat) :
  size points = [B; N; C] -> size query = [B; M; C] -> 0 < B ->
  KNN.forward faiss ctx k query points
  = do '(D, I_) <- faiss C N (take (N * C) (storage points))
                         M (take (M * C) (storage query)) k;
    Ok (repeated_batches ctx B M k D I_).
Proof.
  intros Hp Hq HB. unfold KNN.forward, size_at. rewrite Hp.
  cbn [lookup list_lookup rbind].
  rewrite (rmap_same _ (seq 0 B)
             (do '(D, I_) <- faiss C N (take (N * C) (storage points))
                                   M (take (M * C) (storage query)) k;
              Ok (Tensor D 0 [M; k], Tensor I_ 0 [M; k]))).
  - rewrite length_seq.
    destruct (faiss C N (take (N * C) (storage points)) M
                (take (M * C) (storage query)) k) as [[D I_]|e]; [|reflexivity].
    cbn [rbind].
    set (x := (Tensor D 0 [M; k], Tensor I_ 0 [M; k])).
    rewrite (fmap_replicate snd B x : map snd (replicate B x) = replicate B (snd x)).
    rewrite (fmap_replicate fst B x : map fst (replicate B x) = replicate B (fst x)).
    cbn [fst snd x]. rewrite !stack_replicate by exact HB. reflexivity.
  - destruct B; [lia | discriminate].
  - intros i Hi. apply in_seq in Hi.
    rewrite (select_Ok points i B [N; C] Hp) by lia.
    rewrite (select_Ok query i B [M; C] Hq) by lia.
    cbn [rbind]. apply search_index_pytorch_eq.
Qed.

(** C2, on the code: the search of every batch element reads the reference
    points and the queries from the start of their storages, that is, those
    of batch element 0.  With one reference point per batch element, the
    origin in element 0 and (x, 0, 0) in element 1, and the origin as the
    query of both, the output does not depend on [x], whatever the index
    library computes; with exact search and [x = 1], element 1 is reported
    at distance 0 from its query although its squared distance is 1. *)
Theorem KNN_forward_reads_first_batch :
  (forall (faiss : flat_index f32) (ctx : context f32) (k : nat) (x : Z),
     KNN.forward faiss ctx k origin_queries (two_batches x)
     = KNN.forward faiss ctx k origin_queries (two_batches 0))
  /\ KNN.apply exact_flat_index 1 origin_queries (two_batches 1)
     = Ok (Tensor [0; 0]%Z 0 [2; 1; 1],
           Tensor [S754_zero false; S754_zero false] 0 [2; 1; 1])
  /\ l2sq (f32_vec [0; 0; 0]%Z) (f32_vec [1; 0; 0]%Z) = f32_of_Z 1
  /\ f32_of_Z 1 <> S754_zero false.
Proof.
  split; [|split; [|split]].
  - intros faiss ctx k x.
    rewrite (KNN_forward_eq faiss ctx k origin_queries (two_batches x) 2 1 1 3)
      by (reflexivity || lia).
    rewrite (KNN_forward_eq faiss ctx k origin_queries (two_batches 0) 2 1 1 3)
      by (reflexivity || lia).
    reflexivity.
  - vm_compute. reflexivity.
  - vm_compute. reflexivity.
  - vm_compute. discriminate.
Qed.

(** C4, as stated, fails: with [k = 1] and [N = 2] reference points the
    grouping call fails, on three queries in channel-last layout. *)
Lemma group_knn_fails_though_k_le_N :
  1 <= 2
  /\ group_knn exact_flat_index 1 three_queries two_points true false
     = Raise (AssertionError "points size must be greater or equal to query size").
Proof. split; [lia | vm_compute; reflexivity]. Qed.

(** C4, amended: no call compares [k] with [N].  In channel-last layout,
    with [N] reference points and [M] queries per batch element, grouping
    fails on its assertion when [N < M], whatever [k] is; the search on a
    non-empty batch fails exactly when the index library fails on the data
    it is handed, for every [k]; and when [M <= N], a failure of the index
    library is the failure of the grouping call. *)
Theorem knn_validation {F : Type} (faiss : flat_index F) (k : nat)
  (query points : tensor F) (unique : bool) (B N M C : nat) :
  size points = [B; N; C] -> size query = [B; M; C] ->
  (N < M ->
   group_knn faiss k query points unique false
   = Raise (AssertionError "points size must be greater or equal to query size"))
  /\ (0 < B ->
      forall ctx,
        fails (KNN.forward faiss ctx k query points)
        <-> fails (faiss C N (take (N * C) (storage points))
                         M (take (M * C) (storage query)) k))
  /\ (0 < B -> M <= N ->
      forall e,
        faiss C N (take (N * C) (storage points))
              M (take (M * C) (storage query)) k = Raise e ->
        group_knn faiss k query points unique false = Raise e).
Proof.
  intros Hp Hq.
  assert (Hhead : group_knn faiss k query points unique false
                  = do _ <- assert (M <=? N)
                              "points size must be greater or equal to query size";
                    do '(index_batch, distance_batch) <- KNN.apply faiss k query points;
                    do q2 <- size_at query 2;
                    do points_expanded <- unsqueeze1_expand points q2;
                    do c <- size_last points;
                    do index_batch_expanded <- unsqueeze_last_expand index_batch c;
                    do neighbor_points <-
                      torch_gather2 points_expanded index_batch_expanded;
                    Ok (neighbor_points, index_batch, distance_batch)).
  { unfold group_knn, contiguous, size3, size_at. cbn [rbind].
    rewrite Hp, Hq. reflexivity. }
  split; [|split].
  - intros Hlt. rewrite Hhead.
    destruct (Nat.leb_spec M N) as [?|_]; [lia | reflexivity].
  - intros HB ctx. rewrite (KNN_forward_eq faiss ctx k query points B N M C Hp Hq HB).
    destruct (faiss C N (take (N * C) (storage points)) M
                (take (M * C) (storage query)) k) as [[D I_]|e]; cbn [rbind].
    + split; intros [e He]; discriminate.
    + split; intros _; exists e; reflexivity.
  - intros HB Hle e He. rewrite Hhead.
    destruct (Nat.leb_spec M N) as [_|?]; [|lia]. cbn [assert rbind].
    unfold KNN.apply.
    rewrite (KNN_forward_eq faiss new_context k query points B N M C Hp Hq HB), He.
    reflexivity.
Qed.

Lemma knn_validation_witness :
  group_knn exact_flat_index 1 three_queries two_points true false
  = Raise (AssertionError "points size must be greater or equal to query size")
  /\ (fails (KNN.forward (bounded_flat_index 2) new_context 3 one_query two_points)
      <-> fails (bounded_flat_index 2 3 2 (take (2 * 3) (storage two_points))
                                    1 (take (1 * 3) (storage one_query)) 3))
  /\ group_knn (bounded_flat_index 2) 3 one_query two_points true false
     = Raise (RuntimeError "k exceeds the selection limit").
Proof.
  split; [|split].
  - destruct (knn_validation exact_flat_index 1 three_queries two_points true
                1 2 3 3 eq_refl eq_refl) as (H1 & _ & _).
    apply H1. lia.
  - destruct (knn_validation (bounded_flat_index 2) 3 one_query two_points true
                1 2 1 3 eq_refl eq_refl) as (_ & H2 & _).
    apply H2. lia.
  - destruct (knn_validation (bounded_flat_index 2) 3 one_query two_points true
                1 2 1 3 eq_refl eq_refl) as (_ & _ & H3).
    apply H3; [lia | lia | reflexivity].
Defined.

(** ** Reductions and broadcasting *)

Lemma rmap_getr_omap {A I : Type} (t : tensor A) (g : I -> list nat) (l : list I) :
  (forall i, In i l -> is_Some (get t (g i))) ->
  rmap (fun i => getr t (g i)) l = Ok (omap (fun i => get t (g i)) l).
Proof.
  induction l as [|i l IH]; intros Hl; [reflexivity|].
  destruct (Hl i (or_introl eq_refl)) as [v Hv].
  cbn [rmap]. unfold getr at 1. rewrite Hv. cbn [rbind].
  rewrite IH by (intros i' Hi'; apply Hl; right; exact Hi').
  cbn [rbind].
  change (omap (fun i0 => get t (g i0)) (i :: l))
    with (match get t (g i) with
          | Some y => y :: omap (fun i0 => get t (g i0)) l
          | None => omap (fun i0 => get t (g i0)) l
          end).
  rewrite Hv. reflexivity.
Qed.

Lemma omap_seq_Some {A : Type} (g : nat -> option A) (h : nat -> A) (s n : nat) :
  (forall i, s <= i < s + n -> g i = Some (h i)) ->
  omap g (seq s n) = map h (seq s n).
Proof.
  revert s. induction n as [|n IH]; intros s Hg; [reflexivity|].
  cbn [seq map].
  change (omap g (s :: seq (S s) n))
    with (match g s with
          | Some y => y :: omap g (seq (S s) n)
          | None => omap g (seq (S s) n)
          end).
  rewrite (Hg s) by lia. rewrite IH by (intros i Hi; apply Hg; lia). reflexivity.
Qed.

Lemma layout_ravel (NCHW : bool) (B N C b n c : nat) :
  b < B -> n < N -> c < C ->
  is_Some (ravel (layout_size NCHW B N C) (layout_ix NCHW b n c)).
Proof. intros. destruct NCHW; apply ravel3; assumption. Qed.

Lemma layout_get {A : Type} (t : tensor A) (NCHW : bool) (B N C b n c : nat) :
  well_formed t -> size t = layout_size NCHW B N C ->
  b < B -> n < N -> c < C ->
  is_Some (get t (layout_ix NCHW b n c)).
Proof.
  intros Hwf Hsz Hb Hn Hc. apply get_is_Some; [exact Hwf|].
  rewrite Hsz. apply layout_ravel; assumption.
Qed.

Lemma reduce_points {A R' : Type} (f : list A -> result R') (t : tensor A)
  (NCHW : bool) (B N C : nat) :
  well_formed t -> size t = layout_size NCHW B N C ->
  (forall b c, b < B -> c < C -> succeeds (f (point_values t NCHW b c N))) ->
  exists r,
    reduce_keepdim f t (if NCHW then 2 else 1) = Ok r
    /\ size r = layout_size NCHW B 1 C /\ well_formed r
    /\ forall b c, b < B -> c < C ->
         exists v, f (point_values t NCHW b c N) = Ok v
                   /\ get r (layout_ix NCHW b 0 c) = Some v.
Proof.
  intros Hwf Hsz Hf.
  assert (Hline : forall b c, b < B -> c < C ->
            rmap (fun n => getr t (layout_ix NCHW b n c)) (seq 0 N)
            = Ok (point_values t NCHW b c N)).
  { intros b c Hb Hc. apply rmap_getr_omap. intros n Hn. apply in_seq in Hn.
    apply (layout_get t NCHW B N C); (assumption || lia). }
  unfold reduce_keepdim. rewrite Hsz.
  destruct NCHW; cbn [layout_size layout_ix] in *.
  - set (g := fun ix : list nat =>
                match ix with
                | [i; j; _] =>
                    do l <- rmap (fun k => getr t [i; j; k]) (seq 0 N); f l
                | _ => Raise (IndexError "rank")
                end).
    destruct (tabulate_r_succeeds [B; C; 1] g) as [r Hr].
    { intros ix Hix. apply ravel3_inv in Hix as (b & c & z & -> & Hb & Hc & Hz).
      unfold g. rewrite (Hline b c Hb Hc). cbn [rbind]. apply Hf; assumption. }
    exists r. destruct (tabulate_r_Ok _ _ _ Hr) as (Hs & _ & Hwf' & Hget).
    split; [exact Hr|]. split; [exact Hs|]. split; [exact Hwf'|].
    intros b c Hb Hc.
    destruct (Hget [b; c; 0]) as (v & Hv & Hgv); [apply ravel3; lia|].
    unfold g in Hv. rewrite (Hline b c Hb Hc) in Hv. cbn [rbind] in Hv.
    exists v. auto.
  - set (g := fun ix : list nat =>
                match ix with
                | [i; _; k] =>
                    do l <- rmap (fun j => getr t [i; j; k]) (seq 0 N); f l
                | _ => Raise (IndexError "rank")
                end).
    destruct (tabulate_r_succeeds [B; 1; C] g) as [r Hr].
    { intros ix Hix. apply ravel3_inv in Hix as (b & z & c & -> & Hb & Hz & Hc).
      unfold g. rewrite (Hline b c Hb Hc). cbn [rbind]. apply Hf; assumption. }
    exists r. destruct (tabulate_r_Ok _ _ _ Hr) as (Hs & _ & Hwf' & Hget).
    split; [exact Hr|]. split; [exact Hs|]. split; [exact Hwf'|].
    intros b c Hb Hc.
    destruct (Hget [b; 0; c]) as (v & Hv & Hgv); [apply ravel3; lia|].
    unfold g in Hv. rewrite (Hline b c Hb Hc) in Hv. cbn [rbind] in Hv.
    exists v. auto.
Qed.

Lemma reduce_dims {A R' : Type} (f : list A -> result R') (t : tensor A)
  (NCHW : bool) (B N C : nat) :
  well_formed t -> size t = layout_size NCHW B N C ->
  (forall b n, b < B -> n < N -> succeeds (f (dim_values t NCHW b n C))) ->
  exists r,
    reduce_keepdim f t (if NCHW then 1 else 2) = Ok r
    /\ size r = layout_size NCHW B N 1 /\ well_formed r
    /\ forall b n, b < B -> n < N ->
         exists v, f (dim_values t NCHW b n C) = Ok v
                   /\ get r (layout_ix NCHW b n 0) = Some v.
Proof.
  intros Hwf Hsz Hf.
  assert (Hline : forall b n, b < B -> n < N ->
            rmap (fun c => getr t (layout_ix NCHW b n c)) (seq 0 C)
            = Ok (dim_values t NCHW b n C)).
  { intros b n Hb Hn. apply rmap_getr_omap. intros c Hc. apply in_seq in Hc.
    apply (layout_get t NCHW B N C); (assumption || lia). }
  unfold reduce_keepdim. rewrite Hsz.
  destruct NCHW; cbn [layout_size layout_ix] in *.
  - set (g := fun ix : list nat =>
                match ix with
                | [i; _; k] =>
                    do l <- rmap (fun j => getr t [i; j; k]) (seq 0 C); f l
                | _ => Raise (IndexError "rank")
                end).
    destruct (tabulate_r_succeeds [B; 1; N] g) as [r Hr].
    { intros ix Hix. apply ravel3_inv in Hix as (b & z & n & -> & Hb & Hz & Hn).
      unfold g. rewrite (Hline b n Hb Hn). cbn [rbind]. apply Hf; assumption. }
    exists r. destruct (tabulate_r_Ok _ _ _ Hr) as (Hs & _ & Hwf' & Hget).
    split; [exact Hr|]. split; [exact Hs|]. split; [exact Hwf'|].
    intros b n Hb Hn.
    destruct (Hget [b; 0; n]) as (v & Hv & Hgv); [apply ravel3; lia|].
    unfold g in Hv. rewrite (Hline b n Hb Hn) in Hv. cbn [rbind] in Hv.
    exists v. auto.
  - set (g := fun ix : list nat =>
                match ix with
                | [i; j; _] =>
                    do l <- rmap (fun k => getr t [i; j; k]) (seq 0 C); f l
                | _ => Raise (IndexError "rank")
                end).
    destruct (tabulate_r_succeeds [B; N; 1] g) as [r Hr].
    { intros ix Hix. apply ravel3_inv in Hix as (b & n & z & -> & Hb & Hn & Hz).
      unfold g. rewrite (Hline b n Hb Hn). cbn [rbind]. apply Hf; assumption. }
    exists r. destruct (tabulate_r_Ok _ _ _ Hr) as (Hs & _ & Hwf' & Hget).
    split; [exact Hr|]. split; [exact Hs|]. split; [exact Hwf'|].
    intros b n Hb Hn.
    destruct (Hget [b; n; 0]) as (v & Hv & Hgv); [apply ravel3; lia|].
    unfold g in Hv. rewrite (Hline b n Hb Hn) in Hv. cbn [rbind] in Hv.
    exists v. auto.
Qed.

Lemma get_ravel_Some {A : Type} (t : tensor A) (ix : list nat) (v : A) :
  get t ix = Some v -> is_Some (ravel (size t) ix).
Proof.
  unfold get. destruct (ravel (size t) ix); [eauto | discriminate].
Qed.

Lemma tmap_Ok {A B : Type} (f : A -> B) (t : tensor A) :
  well_formed t ->
  exists r,
    tmap f t = Ok r /\ size r = size t /\ well_formed r
    /\ forall ix v, get t ix = Some v -> get r ix = Some (f v).
Proof.
  intros Hwf. unfold tmap.
  set (g := fun ix : list nat => do x <- getr t ix; Ok (f x)).
  destruct (tabulate_r_succeeds (size t) g) as [r Hr].
  { intros ix Hix. destruct (get_is_Some t ix Hwf Hix) as [v Hv].
    unfold g, getr. rewrite Hv. eexists; reflexivity. }
  exists r. destruct (tabulate_r_Ok _ _ _ Hr) as (Hs & _ & Hwf' & Hget).
  split; [exact Hr|]. split; [exact Hs|]. split; [exact Hwf'|].
  intros ix v Hv. destruct (Hget ix (get_ravel_Some t ix v Hv)) as (w & Hw & ->).
  unfold g, getr in Hw. rewrite Hv in Hw. cbn [rbind] in Hw. congruence.
Qed.

Lemma broadcast2_Ok {A : Type} (op : A -> A -> A) (t u : tensor A) :
  broadcastable (size t) (size u) = true -> well_formed t ->
  (forall ix, is_Some (ravel (size t) ix) ->
              is_Some (get u (broadcast_ix (size u) ix))) ->
  exists r,
    broadcast2 op t u = Ok r /\ size r = size t /\ well_formed r
    /\ forall ix x y, get t ix = Some x ->
                      get u (broadcast_ix (size u) ix) = Some y ->
                      get r ix = Some (op x y).
Proof.
  intros Hb Hwf Hu. unfold broadcast2. rewrite Hb.
  set (g := fun ix : list nat =>
              do x <- getr t ix;
              do y <- getr u (broadcast_ix (size u) ix);
              Ok (op x y)).
  destruct (tabulate_r_succeeds (size t) g) as [r Hr].
  { intros ix Hix. destruct (get_is_Some t ix Hwf Hix) as [x Hx].
    destruct (Hu ix Hix) as [y Hy].
    unfold g, getr. rewrite Hx, Hy. eexists; reflexivity. }
  exists r. destruct (tabulate_r_Ok _ _ _ Hr) as (Hs & _ & Hwf' & Hget).
  split; [exact Hr|]. split; [exact Hs|]. split; [exact Hwf'|].
  intros ix x y Hx Hy.
  destruct (Hget ix (get_ravel_Some t ix x Hx)) as (w & Hw & ->).
  unfold g, getr in Hw. rewrite Hx, Hy in Hw. cbn [rbind] in Hw. congruence.
Qed.

Lemma broadcast_coord (d i : nat) : i < d -> (if d =? 1 then 0 else i) = i.
Proof. intros Hi. destruct (Nat.eqb_spec d 1); lia. Qed.

Lemma broadcast_centroid {A : Type} (op : A -> A -> A) (t u : tensor A)
  (NCHW : bool) (B N C : nat) :
  well_formed t -> size t = layout_size NCHW B N C ->
  well_formed u -> size u = layout_size NCHW B 1 C ->
  exists r,
    broadcast2 op t u = Ok r /\ size r = layout_size NCHW B N C /\ well_formed r
    /\ forall b n c x y, b < B -> n < N -> c < C ->
         get t (layout_ix NCHW b n c) = Some x ->
         get u (layout_ix NCHW b 0 c) = Some y ->
         get r (layout_ix NCHW b n c) = Some (op x y).
Proof.
  intros Hwt Hst Hwu Hsu.
  assert (Hix : forall b n c, b < B -> c < C ->
            broadcast_ix (size u) (layout_ix NCHW b n c) = layout_ix NCHW b 0 c).
  { intros b n c Hb Hc. rewrite Hsu. unfold broadcast_ix.
    destruct NCHW; cbn [layout_size layout_ix zip_with Nat.eqb];
      rewrite !broadcast_coord by assumption; reflexivity. }
  destruct (broadcast2_Ok op t u) as (r & Hr & Hs & Hwr & Hget).
  - rewrite Hst, Hsu. unfold broadcastable.
    destruct NCHW; cbn [layout_size length zip zip_with forallb fst snd Nat.eqb];
      rewrite !Nat.eqb_refl, !orb_true_r; reflexivity.
  - exact Hwt.
  - intros ix Hix'. rewrite Hst in Hix'.
    assert (exists b n c, ix = layout_ix NCHW b n c /\ b < B /\ n < N /\ c < C)
      as (b & n & c & -> & Hb & Hn & Hc).
    { destruct NCHW; cbn [layout_size layout_ix] in *;
        apply ravel3_inv in Hix' as (i & j & k & -> & Hi & Hj & Hk); eauto 10. }
    rewrite (Hix b n c Hb Hc).
    apply (layout_get u NCHW B 1 C); (assumption || lia).
  - exists r. split; [exact Hr|]. split; [congruence|]. split; [exact Hwr|].
    intros b n c x y Hb Hn Hc Hx Hy. apply Hget; [exact Hx|].
    rewrite (Hix b n c Hb Hc). exact Hy.
Qed.

Lemma broadcast_scalar {A : Type} (op : A -> A -> A) (t u : tensor A)
  (NCHW : bool) (B N C : nat) :
  well_formed t -> size t = layout_size NCHW B N C ->
  well_formed u -> size u = [B; 1; 1] ->
  exists r,
    broadcast2 op t u = Ok r /\ size r = layout_size NCHW B N C /\ well_formed r
    /\ forall b n c x y, b < B -> n < N -> c < C ->
         get t (layout_ix NCHW b n c) = Some x ->
         get u [b; 0; 0] = Some y ->
         get r (layout_ix NCHW b n c) = Some (op x y).
Proof.
  intros Hwt Hst Hwu Hsu.
  assert (Hix : forall b n c, b < B ->
            broadcast_ix (size u) (layout_ix NCHW b n c) = [b; 0; 0]).
  { intros b n c Hb. rewrite Hsu. unfold broadcast_ix.
    destruct NCHW; cbn [layout_ix zip_with Nat.eqb];
      rewrite !broadcast_coord by assumption; reflexivity. }
  destruct (broadcast2_Ok op t u) as (r & Hr & Hs & Hwr & Hget).
  - rewrite Hst, Hsu. unfold broadcastable.
    destruct NCHW; cbn [layout_size length zip zip_with forallb fst snd Nat.eqb];
      rewrite ?Nat.eqb_refl, ?orb_true_r; reflexivity.
  - exact Hwt.
  - intros ix Hix'. rewrite Hst in Hix'.
    assert (exists b n c, ix = layout_ix NCHW b n c /\ b < B /\ n < N /\ c < C)
      as (b & n & c & -> & Hb & Hn & Hc).
    { destruct NCHW; cbn [layout_size layout_ix] in *;
        apply ravel3_inv in Hix' as (i & j & k & -> & Hi & Hj & Hk); eauto 10. }
    rewrite (Hix b n c Hb).
    apply get_is_Some; [exact Hwu|]. rewrite Hsu. apply ravel3; lia.
  - exists r. split; [exact Hr|]. split; [congruence|]. split; [exact Hwr|].
    intros b n c x y Hb Hn Hc Hx Hy. apply Hget; [exact Hx|].
    rewrite (Hix b n c Hb). exact Hy.
Qed.

Section Values.

Context {F : Type} `{Dtype F} `{Reduction F}.
Variables (NCHW : bool) (B N C : nat).

Lemma point_values_map (t : tensor F) (V : nat -> nat -> nat -> F) (C' b c : nat) :
  has_values t NCHW B N C' V -> b < B -> c < C' ->
  point_values t NCHW b c N = map (fun n => V b n c) (seq 0 N).
Proof.
  intros (_ & _ & Hv) Hb Hc. unfold point_values.
  apply omap_seq_Some. intros n Hn. apply Hv; lia.
Qed.

Lemma dim_values_map (t : tensor F) (V : nat -> nat -> nat -> F) (b n : nat) :
  has_values t NCHW B N C V -> b < B -> n < N ->
  dim_values t NCHW b n C = map (fun c => V b n c) (seq 0 C).
Proof.
  intros (_ & _ & Hv) Hb Hn. unfold dim_values.
  apply omap_seq_Some. intros c Hc. apply Hv; lia.
Qed.

Lemma torch_mean_values (t : tensor F) (V : nat -> nat -> nat -> F) :
  has_values t NCHW B N C V ->
  exists r,
    torch_mean t (if NCHW then 2 else 1) = Ok r
    /\ has_values r NCHW B 1 C (fun b _ c => mean_value (fun n => V b n c) N).
Proof.
  intros Ht. pose proof Ht as (Hwf & Hsz & Hv). unfold torch_mean.
  destruct (reduce_points (fun l => Ok (rmean l))
              t NCHW B N C Hwf Hsz) as (r & Hr & Hs & Hwr & Hget).
  { intros b c _ _. eexists; reflexivity. }
  exists r. split; [exact Hr|]. split; [exact Hwr|]. split; [exact Hs|].
  intros b n c Hb Hn Hc. replace n with 0 by lia.
  destruct (Hget b c Hb Hc) as (v & [= <-] & ->).
  rewrite (point_values_map t V C b c Ht Hb Hc).
  reflexivity.
Qed.

Lemma max_point_norm_values (t : tensor F) (V : nat -> nat -> nat -> F) :
  has_values t NCHW B N C V -> (0 < B -> 0 < N) ->
  exists r,
    max_point_norm t NCHW = Ok r
    /\ well_formed r /\ size r = [B; 1; 1]
    /\ forall b, b < B -> get r [b; 0; 0] = Some (max_norm_value (V b) N C).
Proof.
  intros Ht HN. pose proof Ht as (Hwf & Hsz & Hv). unfold max_point_norm.
  destruct (tmap_Ok (fun x => fmul x x) t Hwf) as (sq & -> & Hs_sq & Hw_sq & Hg_sq).
  cbn [rbind].
  assert (Hsq : has_values sq NCHW B N C (fun b n c => fmul (V b n c) (V b n c))).
  { split; [exact Hw_sq|]. split; [congruence|].
    intros b n c Hb Hn Hc. apply Hg_sq, Hv; assumption. }
  unfold torch_sum.
  destruct (reduce_dims (fun l => Ok (rsum l)) sq NCHW B N C Hw_sq)
    as (sums & -> & Hs_sums & Hw_sums & Hg_sums).
  { congruence. }
  { intros b n _ _. eexists; reflexivity. }
  cbn [rbind].
  destruct (tmap_Ok fsqrt sums Hw_sums) as (norms & -> & Hs_n & Hw_n & Hg_n).
  cbn [rbind].
  assert (Hnorms : has_values norms NCHW B N 1 (fun b n _ => norm_value (V b n) C)).
  { split; [exact Hw_n|]. split; [congruence|].
    intros b n c Hb Hn Hc. replace c with 0 by lia.
    destruct (Hg_sums b n Hb Hn) as (v & [= <-] & Hgv).
    rewrite (Hg_n _ _ Hgv). unfold norm_value.
    rewrite (dim_values_map sq _ b n Hsq Hb Hn). reflexivity. }
  unfold torch_max.
  destruct (reduce_points
              (fun l => match l with
                        | [] => Raise (IndexError "max(): Expected reduction dim to have non-zero size")
                        | x :: l' => Ok (foldl fmax x l')
                        end)
              norms NCHW B N 1 Hw_n) as (r & Hr & Hs_r & Hw_r & Hg_r).
  { congruence. }
  { intros b c Hb Hc.
    rewrite (point_values_map norms _ 1 b c Hnorms Hb Hc).
    destruct N as [|N']; [lia|]. cbn [seq map]. eexists; reflexivity. }
  exists r. split; [exact Hr|]. split; [exact Hw_r|].
  split; [rewrite Hs_r; destruct NCHW; reflexivity|].
  intros b Hb. destruct (Hg_r b 0 Hb) as (v & Hv' & Hgv); [lia|].
  replace (layout_ix NCHW b 0 0) with [b; 0; 0] in Hgv by (destruct NCHW; reflexivity).
  rewrite Hgv. f_equal.
  rewrite (point_values_map norms _ 1 b 0 Hnorms Hb) in Hv' by lia.
  unfold max_norm_value, max_list.
  destruct (map (fun n => norm_value (V b n) C) (seq 0 N)) as [|x l];
    [|congruence].
  destruct N; [lia | discriminate].
Qed.

(** The value of every entry of the three outputs, in the arithmetic of the
    dtype. *)
Lemma normalize_point_batch_values (pc : tensor F) (V : nat -> nat -> nat -> F) :
  has_values pc NCHW B N C V -> (0 < B -> 0 < N) ->
  exists pc' centroid furthest_distance,
    normalize_point_batch pc NCHW = Ok (pc', centroid, furthest_distance)
    /\ has_values centroid NCHW B 1 C (fun b _ c => mean_value (fun n => V b n c) N)
    /\ well_formed furthest_distance /\ size furthest_distance = [B; 1; 1]
    /\ (forall b, b < B ->
          get furthest_distance [b; 0; 0]
          = Some (max_norm_value
                    (fun n c => fsub (V b n c) (mean_value (fun n' => V b n' c) N))
                    N C))
    /\ has_values pc' NCHW B N C
         (fun b n c =>
            fdiv (fsub (V b n c) (mean_value (fun n' => V b n' c) N))
                 (max_norm_value
                    (fun n' c' => fsub (V b n' c') (mean_value (fun n'' => V b n'' c') N))
                    N C)).
Proof.
  intros Ht HN. pose proof Ht as (Hwf & Hsz & Hv).
  destruct (torch_mean_values pc V Ht) as (centroid & Hmean & Hcen).
  pose proof Hcen as (Hw_c & Hs_c & Hv_c).
  destruct (broadcast_centroid fsub pc centroid NCHW B N C Hwf Hsz Hw_c Hs_c)
    as (pc1 & Hsub & Hs_1 & Hw_1 & Hg_1).
  assert (H1 : has_values pc1 NCHW B N C
                 (fun b n c => fsub (V b n c) (mean_value (fun n' => V b n' c) N))).
  { split; [exact Hw_1|]. split; [exact Hs_1|].
    intros b n c Hb Hn Hc. apply Hg_1; try assumption.
    - apply Hv; assumption.
    - apply Hv_c; (assumption || lia). }
  destruct (max_point_norm_values pc1 _ H1 HN) as (fd & Hmax & Hw_f & Hs_f & Hg_f).
  destruct (broadcast_scalar fdiv pc1 fd NCHW B N C Hw_1 Hs_1 Hw_f Hs_f)
    as (pc' & Hdiv & Hs_p & Hw_p & Hg_p).
  exists pc', centroid, fd.
  split; [|split; [exact Hcen|split; [exact Hw_f|split; [exact Hs_f|split; [exact Hg_f|]]]]].
  - unfold normalize_point_batch. rewrite Hmean. cbn [rbind]. rewrite Hsub.
    cbn [rbind]. unfold max_point_norm in Hmax.
    destruct (tmap (fun x => fmul x x) pc1) as [sq|]; [|discriminate].
    cbn [rbind] in *.
    destruct (torch_sum sq (if NCHW then 1 else 2)) as [sums|]; [|discriminate].
    cbn [rbind] in *.
    destruct (tmap fsqrt sums) as [norms|]; [|discriminate].
    cbn [rbind] in *. rewrite Hmax. cbn [rbind]. rewrite Hdiv. reflexivity.
  - split; [exact Hw_p|]. split; [exact Hs_p|].
    intros b n c Hb Hn Hc. apply Hg_p; try assumption.
    + apply H1; assumption.
    + apply Hg_f. exact Hb.
Qed.

End Values.

(** ** [normalize_point_batch] *)




(** * Further properties of the code *)

(** ** Loops that raise *)

Lemma rmap_fails {A B : Type} (f : A -> result B) (l : list A) (a : A) :
  In a l -> fails (f a) -> fails (rmap f l).
Proof.
  induction l as [|x l IH]; intros Hin Hf; [contradiction|].
  cbn [rmap]. destruct (f x) as [b|e] eqn:Hx.
  - destruct Hin as [->|Hin].
    + destruct Hf as [e He]. congruence.
    + cbn [rbind]. destruct (IH Hin Hf) as [e He]. rewrite He.
      exists e. reflexivity.
  - exists e. reflexivity.
Qed.

Lemma rmap_all_raise {A B : Type} (f : A -> result B) (l : list A) (e : exn) :
  l <> [] -> (forall a, In a l -> f a = Raise e) -> rmap f l = Raise e.
Proof.
  destruct l as [|x l]; intros Hne Hf; [contradiction|].
  cbn [rmap]. rewrite (Hf x) by (left; reflexivity). reflexivity.
Qed.

Lemma fails_bind {A B : Type} (m : result A) (k : A -> result B) :
  (forall a, m = Ok a -> fails (k a)) -> fails (rbind m k).
Proof.
  destruct m as [a|e]; intros H; cbn [rbind]; [auto | exists e; reflexivity].
Qed.

Lemma fails_not_Ok {A : Type} (m : result A) (a : A) : fails m -> m <> Ok a.
Proof. intros [e ->]. discriminate. Qed.

(** ** [normalize_point_batch]: shapes and the empty batch element *)

(** X1: for every dtype, whatever its sum and mean reductions compute, and
    both layouts, on a batch whose point axis is not empty the call returns,
    whatever the values (a batch element whose
    points all coincide included: nothing is raised for it), the normalised
    points in the shape of the input, the centroid with the point axis
    reduced to 1 and the furthest distance in shape (B, 1, 1). *)
Theorem normalize_point_batch_shapes {F : Type} `{Dtype F} `{Reduction F}
  (pc : tensor F) (NCHW : bool) (B N C : nat) :
  well_formed pc -> size pc = layout_size NCHW B N C -> 0 < N ->
  exists pc' centroid furthest_distance,
    normalize_point_batch pc NCHW = Ok (pc', centroid, furthest_distance)
    /\ size pc' = size pc
    /\ size centroid = layout_size NCHW B 1 C
    /\ size furthest_distance = [B; 1; 1]
    /\ well_formed pc' /\ well_formed centroid /\ well_formed furthest_distance.
Proof.
  intros Hwf Hsz HN.
  set (V := fun b n c => default fzero (get pc (layout_ix NCHW b n c))).
  assert (Hpc : has_values pc NCHW B N C V).
  { split; [exact Hwf|]. split; [exact Hsz|]. intros b n c Hb Hn Hc.
    destruct (layout_get pc NCHW B N C b n c Hwf Hsz Hb Hn Hc) as [v Hv].
    unfold V. rewrite Hv. reflexivity. }
  destruct (normalize_point_batch_values NCHW B N C pc V Hpc (fun _ => HN))
    as (pc' & centroid & fd & Hrun & (Hw_c & Hs_c & _) & Hw_f & Hs_f & _
        & (Hw_p & Hs_p & _)).
  exists pc', centroid, fd. rewrite Hsz. auto 10.
Qed.

Lemma normalize_point_batch_shapes_witness :
  exists pc' centroid furthest_distance,
    normalize_point_batch unit_and_tiny false = Ok (pc', centroid, furthest_distance)
    /\ size pc' = size unit_and_tiny
    /\ size centroid = layout_size false 1 1 3
    /\ size furthest_distance = [1; 1; 1]
    /\ well_formed pc' /\ well_formed centroid /\ well_formed furthest_distance.
Proof.
  apply (normalize_point_batch_shapes unit_and_tiny false 1 2 3).
  - unfold well_formed. simpl. lia.
  - reflexivity.
  - lia.
Defined.

(** X2: for every dtype, whatever its sum and mean reductions compute, and
    both layouts, a batch with at least one batch element and no points is
    rejected: the mean, the subtraction, the
    squares, the sum and the square root go through on the empty point axis,
    and the maximum over it raises. *)
Theorem normalize_point_batch_no_points {F : Type} `{Dtype F} `{Reduction F}
  (pc : tensor F) (NCHW : bool) (B C : nat) :
  well_formed pc -> size pc = layout_size NCHW B 0 C -> 0 < B ->
  exists msg, normalize_point_batch pc NCHW = Raise (IndexError msg).
Proof.
  intros Hwf Hsz HB.
  exists "max(): Expected reduction dim to have non-zero size".
  assert (Hpc : has_values pc NCHW B 0 C (fun _ _ _ => fzero)).
  { split; [exact Hwf|]. split; [exact Hsz|]. intros b n c _ Hn. lia. }
  destruct (torch_mean_values NCHW B 0 C pc _ Hpc) as (centroid & Hmean & Hcen).
  destruct Hcen as (Hw_c & Hs_c & _).
  destruct (broadcast_centroid fsub pc centroid NCHW B 0 C Hwf Hsz Hw_c Hs_c)
    as (pc1 & Hsub & Hs_1 & Hw_1 & _).
  destruct (tmap_Ok (fun x => fmul x x) pc1 Hw_1) as (sq & Hsq & Hs_sq & Hw_sq & _).
  destruct (reduce_dims (fun l => Ok (rsum l)) sq NCHW B 0 C Hw_sq)
    as (sums & Hsums & Hs_sums & Hw_sums & _).
  { congruence. }
  { intros b n _ Hn. lia. }
  destruct (tmap_Ok fsqrt sums Hw_sums) as (norms & Hnorms & Hs_n & _ & _).
  unfold normalize_point_batch. rewrite Hmean. cbn [rbind]. rewrite Hsub.
  cbn [rbind]. rewrite Hsq. cbn [rbind]. fold (torch_sum sq (if NCHW then 1 else 2)).
  unfold torch_sum. rewrite Hsums. cbn [rbind]. rewrite Hnorms. cbn [rbind].
  assert (Hmax : torch_max norms (if NCHW then 2 else 1)
                 = Raise (IndexError "max(): Expected reduction dim to have non-zero size")).
  { unfold torch_max, reduce_keepdim. rewrite Hs_n, Hs_sums.
    destruct NCHW; cbn [layout_size]; unfold tabulate_r;
      (rewrite (rmap_all_raise _ _
                  (IndexError "max(): Expected reduction dim to have non-zero size"));
       [reflexivity
       | intros Hnil; apply (f_equal length) in Hnil;
         rewrite length_indices in Hnil; simpl in Hnil; lia
       | intros ix Hix; apply ravel_indices_In, ravel3_inv in Hix;
         destruct Hix as (i & j & l & -> & _); reflexivity]). }
  rewrite Hmax. reflexivity.
Qed.

Lemma normalize_point_batch_no_points_witness :
  exists msg, normalize_point_batch no_points false = Raise (IndexError msg).
Proof.
  apply (normalize_point_batch_no_points no_points false 1 3).
  - unfold well_formed. simpl. lia.
  - reflexivity.
  - lia.
Defined.

(** ** [KNN.forward]: the batch axis *)

Lemma lookup_concat_replicate {A : Type} (l : list A) (n B b p : nat) :
  length l = n -> b < B -> p < n ->
  concat (replicate B l) !! (b * n + p) = l !! p.
Proof.
  intros Hl. revert b. induction B as [|B IH]; intros b Hb Hp; [lia|].
  cbn [replicate concat]. destruct b as [|b].
  - rewrite lookup_app_l by lia. reflexivity.
  - rewrite lookup_app_r by (rewrite Hl; simpl; lia).
    replace (S b * n + p - length l) with (b * n + p) by (rewrite Hl; simpl; lia).
    apply IH; lia.
Qed.

Lemma get_repeated {A : Type} (l : list A) (B M k b m j : nat) :
  length l = M * k -> b < B -> m < M -> j < k ->
  get (Tensor (concat (replicate B (take (numel [M; k]) l))) 0 [B; M; k]) [b; m; j]
  = l !! (m * k + j).
Proof.
  intros Hl Hb Hm Hj. unfold get. cbn [size storage storage_offset ravel].
  destruct (Nat.ltb_spec b B); [|lia]. destruct (Nat.ltb_spec m M); [|lia].
  destruct (Nat.ltb_spec j k); [|lia].
  assert (Hn : numel [M; k] = M * k) by (simpl; lia).
  rewrite take_ge by lia.
  replace (0 + (b * numel [M; k] + (m * numel [k] + (j * numel [] + 0))))
    with (b * (M * k) + (m * k + j)) by (simpl; lia).
  apply lookup_concat_replicate; [exact Hl | lia | nia].
Qed.

(** The batch size is that of [points]: batch elements of [query] beyond it
    are never read. *)
Lemma KNN_forward_surplus {F : Type} (faiss : flat_index F) (ctx : context F)
  (k : nat) (query points : tensor F) (B Bq N M C : nat) :
  size points = [B; N; C] -> size query = [Bq; M; C] -> 0 < B -> B <= Bq ->
  KNN.forward faiss ctx k query points
  = do '(D, I_) <- faiss C N (take (N * C) (storage points))
                         M (take (M * C) (storage query)) k;
    Ok (repeated_batches ctx B M k D I_).
Proof.
  intros Hp Hq HB HBq. unfold KNN.forward, size_at. rewrite Hp.
  cbn [lookup list_lookup rbind].
  rewrite (rmap_same _ (seq 0 B)
             (do '(D, I_) <- faiss C N (take (N * C) (storage points))
                                   M (take (M * C) (storage query)) k;
              Ok (Tensor D 0 [M; k], Tensor I_ 0 [M; k]))).
  - rewrite length_seq.
    destruct (faiss C N (take (N * C) (storage points)) M
                (take (M * C) (storage query)) k) as [[D I_]|e]; [|reflexivity].
    cbn [rbind].
    set (x := (Tensor D 0 [M; k], Tensor I_ 0 [M; k])).
    rewrite (fmap_replicate snd B x : map snd (replicate B x) = replicate B (snd x)).
    rewrite (fmap_replicate fst B x : map fst (replicate B x) = replicate B (fst x)).
    cbn [fst snd x]. rewrite !stack_replicate by exact HB. reflexivity.
  - destruct B; [lia | discriminate].
  - intros i Hi. apply in_seq in Hi.
    rewrite (select_Ok points i B [N; C] Hp) by lia.
    rewrite (select_Ok query i Bq [M; C] Hq) by lia.
    cbn [rbind]. apply search_index_pytorch_eq.
Qed.

(** X3: on an empty batch the loop of [KNN.forward] runs no search and
    [torch.stack] is called on an empty list, which raises, whatever the
    index library; [group_knn] passes the error on, in both layouts. *)
Theorem empty_batch_raises {F : Type} (faiss : flat_index F) (ctx : context F)
  (k : nat) (query points : tensor F) (unique NCHW : bool) (N M C : nat) :
  well_formed points -> well_formed query ->
  size points = layout_size NCHW 0 N C -> size query = layout_size NCHW 0 M C ->
  (if NCHW then C else M) <= N ->
  (forall q, KNN.forward faiss ctx k q points
             = Raise (RuntimeError "stack expects a non-empty TensorList"))
  /\ group_knn faiss k query points unique NCHW
     = Raise (RuntimeError "stack expects a non-empty TensorList").
Proof.
  intros Hwp Hwq Hp Hq Hle.
  assert (Hfw : forall (c : context F) (p q : tensor F) (sz : list nat),
             size p = 0 :: sz ->
             KNN.forward faiss c k q p
             = Raise (RuntimeError "stack expects a non-empty TensorList")).
  { intros c p q sz Hs. unfold KNN.forward, size_at. rewrite Hs. reflexivity. }
  split.
  - intros q. destruct NCHW; eapply Hfw; exact Hp.
  - unfold group_knn. destruct NCHW; cbn [layout_size] in Hp, Hq.
    + unfold size3 at 1. rewrite Hp. cbn [rbind].
      destruct (transpose21_Ok points 0 C N Hwp Hp) as (pt & Hpt & Hspt & _).
      destruct (transpose21_Ok query 0 C M Hwq Hq) as (qt & Hqt & _).
      rewrite Hpt, Hqt. cbn [rbind]. unfold size3, size_at. rewrite Hspt, Hq.
      cbn [rbind lookup list_lookup assert].
      destruct (Nat.leb_spec C N); [|lia]. cbn [rbind].
      unfold KNN.apply. rewrite (Hfw _ pt qt [N; C] Hspt). reflexivity.
    + cbn [rbind]. unfold contiguous, size3, size_at. rewrite Hp, Hq.
      cbn [rbind lookup list_lookup assert].
      destruct (Nat.leb_spec M N); [|lia]. cbn [rbind].
      unfold KNN.apply. rewrite (Hfw _ points query [N; C] Hp). reflexivity.
Qed.

Lemma empty_batch_raises_witness :
  (forall q, KNN.forward exact_flat_index new_context 1 q (no_batch 2)
             = Raise (RuntimeError "stack expects a non-empty TensorList"))
  /\ group_knn exact_flat_index 1 (no_batch 1) (no_batch 2) true false
     = Raise (RuntimeError "stack expects a non-empty TensorList").
Proof.
  apply (empty_batch_raises exact_flat_index new_context 1 (no_batch 1) (no_batch 2)
           true false 2 1 3).
  - unfold well_formed. simpl. lia.
  - unfold well_formed. simpl. lia.
  - reflexivity.
  - reflexivity.
  - lia.
Defined.

(** X4: [KNN.forward] runs the same search for every batch element. With
    [B > 0] batch elements in [points] and at least as many in [query],
    whenever the index library, given the first [N * C] storage entries of
    [points] and the first [M * C] of [query], fills the [M * k] distances
    and labels, the call returns tensors of shape (B, M, k) whose every
    batch element holds those distances and labels. *)
Theorem KNN_forward_every_batch_element {F : Type} (faiss : flat_index F)
  (ctx : context F) (k : nat) (query points : tensor F) (B Bq N M C : nat)
  (D : list F) (I_ : list Z) :
  size points = [B; N; C] -> size query = [Bq; M; C] -> 0 < B -> B <= Bq ->
  faiss C N (take (N * C) (storage points)) M (take (M * C) (storage query)) k
  = Ok (D, I_) ->
  length D = M * k -> length I_ = M * k ->
  exists index_batch distance_batch ctx',
    KNN.forward faiss ctx k query points = Ok ((index_batch, distance_batch), ctx')
    /\ size index_batch = [B; M; k] /\ size distance_batch = [B; M; k]
    /\ forall b m j, b < B -> m < M -> j < k ->
         get index_batch [b; m; j] = I_ !! (m * k + j)
         /\ get distance_batch [b; m; j] = D !! (m * k + j).
Proof.
  intros Hp Hq HB HBq Hs HD HI.
  rewrite (KNN_forward_surplus faiss ctx k query points B Bq N M C Hp Hq HB HBq), Hs.
  cbn [rbind]. unfold repeated_batches. eexists _, _, _.
  split; [reflexivity|]. split; [reflexivity|]. split; [reflexivity|].
  intros b m j Hb Hm Hj. split; apply get_repeated; assumption.
Qed.

Lemma KNN_forward_every_batch_element_witness :
  exists index_batch distance_batch ctx',
    KNN.forward exact_flat_index new_context 1 origin_queries (two_batches 1)
    = Ok ((index_batch, distance_batch), ctx')
    /\ size index_batch = [2; 1; 1] /\ size distance_batch = [2; 1; 1]
    /\ forall b m j, b < 2 -> m < 1 -> j < 1 ->
         get index_batch [b; m; j] = [0%Z] !! (m * 1 + j)
         /\ get distance_batch [b; m; j] = [S754_zero false] !! (m * 1 + j).
Proof.
  apply (KNN_forward_every_batch_element exact_flat_index new_context 1
           origin_queries (two_batches 1) 2 2 1 1 3).
  - reflexivity.
  - reflexivity.
  - lia.
  - lia.
  - vm_compute. reflexivity.
  - reflexivity.
  - reflexivity.
Defined.

(** X5: [KNN.forward] indexes [query] with the batch positions of [points]:
    when [query] has fewer batch elements, the call fails, whatever the
    index library returns for the batch elements before the missing one. *)
Theorem KNN_forward_short_query {F : Type} (faiss : flat_index F)
  (ctx : context F) (k : nat) (query points : tensor F) (B Bq : nat)
  (sz szq : list nat) :
  size points = B :: sz -> size query = Bq :: szq -> Bq < B ->
  fails (KNN.forward faiss ctx k query points).
Proof.
  intros Hp Hq Hlt. unfold KNN.forward, size_at. rewrite Hp.
  cbn [lookup list_lookup rbind]. apply fails_bind. intros batches Hb.
  exfalso. revert Hb. apply fails_not_Ok.
  apply (rmap_fails _ _ Bq).
  - apply in_seq. lia.
  - rewrite (select_Ok points Bq B sz Hp Hlt). cbn [rbind].
    unfold select. rewrite Hq. rewrite Nat.ltb_irrefl.
    eexists. reflexivity.
Qed.

Lemma KNN_forward_short_query_witness :
  fails (KNN.forward exact_flat_index new_context 1 one_query (two_batches 1)).
Proof.
  apply (KNN_forward_short_query exact_flat_index new_context 1 one_query
           (two_batches 1) 2 1 [1; 3] [1; 3]).
  - reflexivity.
  - reflexivity.
  - lia.
Defined.

(** ** [group_knn]: what a successful call returns *)

Lemma ravel4 (a b c d i j k l : nat) :
  i < a -> j < b -> k < c -> l < d ->
  is_Some (ravel [a; b; c; d] [i; j; k; l]).
Proof.
  intros Hi Hj Hk Hl. simpl.
  destruct (Nat.ltb_spec i a); [|lia]. destruct (Nat.ltb_spec j b); [|lia].
  destruct (Nat.ltb_spec k c); [|lia]. destruct (Nat.ltb_spec l d); [|lia].
  eexists; reflexivity.
Qed.

Lemma transpose21_inv {A : Type} (t t' : tensor A) (a b c : nat) :
  transpose21 t = Ok t' -> size t = [a; b; c] ->
  size t' = [a; c; b]
  /\ forall i j k, i < a -> j < c -> k < b ->
       is_Some (get t' [i; j; k]) /\ get t' [i; j; k] = get t [i; k; j].
Proof.
  unfold transpose21. intros Ht Hsz. rewrite Hsz in Ht.
  destruct (tabulate_r_Ok _ _ _ Ht) as (Hs & _ & _ & Hget).
  split; [exact Hs|]. intros i j k Hi Hj Hk.
  destruct (Hget [i; j; k] (ravel3 _ _ _ _ _ _ Hi Hj Hk)) as (v & Hv & Hv').
  apply getr_Ok in Hv. rewrite Hv, Hv'. split; [eauto | reflexivity].
Qed.

Lemma unsqueeze1_expand_inv {A : Type} (t r : tensor A) (m a b c : nat) :
  unsqueeze1_expand t m = Ok r -> size t = [a; b; c] ->
  size r = [a; m; b; c]
  /\ forall i l j k, i < a -> l < m -> j < b -> k < c ->
       get r [i; l; j; k] = get t [i; j; k].
Proof.
  unfold unsqueeze1_expand. intros Ht Hsz. rewrite Hsz in Ht.
  destruct (tabulate_r_Ok _ _ _ Ht) as (Hs & _ & _ & Hget).
  split; [exact Hs|]. intros i l j k Hi Hl Hj Hk.
  destruct (Hget [i; l; j; k] (ravel4 _ _ _ _ _ _ _ _ Hi Hl Hj Hk)) as (v & Hv & Hv').
  apply getr_Ok in Hv. congruence.
Qed.

Lemma unsqueeze_last_expand_inv {A : Type} (t r : tensor A) (c a b k : nat) :
  unsqueeze_last_expand t c = Ok r -> size t = [a; b; k] ->
  size r = [a; b; k; c]
  /\ forall i j l x, i < a -> j < b -> l < k -> x < c ->
       get r [i; j; l; x] = get t [i; j; l].
Proof.
  unfold unsqueeze_last_expand. intros Ht Hsz. rewrite Hsz in Ht.
  destruct (tabulate_r_Ok _ _ _ Ht) as (Hs & _ & _ & Hget).
  split; [exact Hs|]. intros i j l x Hi Hj Hl Hx.
  destruct (Hget [i; j; l; x] (ravel4 _ _ _ _ _ _ _ _ Hi Hj Hl Hx)) as (v & Hv & Hv').
  apply getr_Ok in Hv. congruence.
Qed.

Lemma permute0312_inv {A : Type} (t r : tensor A) (a b c d : nat) :
  permute0312 t = Ok r -> size t = [a; b; c; d] ->
  size r = [a; d; b; c]
  /\ forall i l j k, i < a -> l < d -> j < b -> k < c ->
       get r [i; l; j; k] = get t [i; j; k; l].
Proof.
  unfold permute0312. intros Ht Hsz. rewrite Hsz in Ht.
  destruct (tabulate_r_Ok _ _ _ Ht) as (Hs & _ & _ & Hget).
  split; [exact Hs|]. intros i l j k Hi Hl Hj Hk.
  destruct (Hget [i; l; j; k] (ravel4 _ _ _ _ _ _ _ _ Hi Hl Hj Hk)) as (v & Hv & Hv').
  apply getr_Ok in Hv. congruence.
Qed.

Lemma torch_gather2_inv {A : Type} (input r : tensor A) (index : tensor Z)
  (a0 a1 a2 a3 b0 b1 b2 b3 : nat) :
  torch_gather2 input index = Ok r ->
  size input = [a0; a1; a2; a3] -> size index = [b0; b1; b2; b3] ->
  size r = [b0; b1; b2; b3]
  /\ forall i j l c, i < b0 -> j < b1 -> l < b2 -> c < b3 ->
       b0 <= a0 /\ b1 <= a1 /\ b3 <= a3
       /\ exists n, get index [i; j; l; c] = Some (Z.of_nat n) /\ n < a2
                    /\ is_Some (get r [i; j; l; c])
                    /\ get r [i; j; l; c] = get input [i; j; n; c].
Proof.
  unfold torch_gather2. intros Ht Hin Hix. rewrite Hin, Hix in Ht.
  destruct (Nat.eqb_spec (numel [b0; b1; b2; b3]) 0) as [Hz|Hnz].
  { injection Ht as <-. split; [reflexivity|].
    intros i j l c Hi Hj Hl Hc. exfalso. unfold numel in Hz. cbn [foldr] in Hz.
    repeat (apply Nat.eq_mul_0 in Hz as [Hz|Hz]; [lia|]). lia. }
  destruct (Nat.leb_spec b0 a0); [|discriminate].
  destruct (Nat.leb_spec b1 a1); [|discriminate].
  destruct (Nat.leb_spec b3 a3); [|discriminate].
  cbn [andb] in Ht.
  destruct (tabulate_r_Ok _ _ _ Ht) as (Hs & _ & _ & Hget).
  split; [exact Hs|]. intros i j l c Hi Hj Hl Hc.
  split; [assumption|]. split; [assumption|]. split; [assumption|].
  destruct (Hget [i; j; l; c] (ravel4 _ _ _ _ _ _ _ _ Hi Hj Hl Hc)) as (v & Hv & Hv').
  cbn beta iota in Hv. inv_bind Hv.
  apply getr_Ok in Ha.
  destruct (Z.leb_spec 0 a); [|discriminate].
  destruct (Z.ltb_spec a (Z.of_nat a2)); [|discriminate].
  cbn [andb] in Hv. apply getr_Ok in Hv.
  exists (Z.to_nat a). rewrite Z2Nat.id by assumption.
  split; [exact Ha|]. split; [lia|]. rewrite Hv, Hv'. split; [eauto | reflexivity].
Qed.

Lemma KNN_apply_inv {F : Type} (faiss : flat_index F) (k : nat)
  (query points : tensor F) (B N M C : nat) (ib : tensor Z) (db : tensor F) :
  size points = [B; N; C] -> size query = [B; M; C] ->
  KNN.apply faiss k query points = Ok (ib, db) ->
  0 < B /\ size ib = [B; M; k] /\ size db = [B; M; k].
Proof.
  intros Hp Hq Hr. unfold KNN.apply in Hr.
  destruct B as [|B'].
  - unfold KNN.forward, size_at in Hr. rewrite Hp in Hr. discriminate.
  - rewrite (KNN_forward_eq faiss new_context k query points (S B') N M C Hp Hq)
      in Hr by lia.
    destruct (faiss C N (take (N * C) (storage points)) M
                (take (M * C) (storage query)) k) as [[D I_]|e]; [|discriminate].
    cbn [rbind repeated_batches] in Hr. injection Hr as <- <-.
    split; [lia|]. split; reflexivity.
Qed.

(** X6: a successful [group_knn] returns what its docstring announces, for
    every dtype and index library: [index_batch] and [distance_batch] of
    shape (B, M, k), [neighbor_points] of shape (B, C, M, k) in
    channel-first and (B, M, k, C) in channel-last layout; every returned
    index is a position of a reference point, and the neighbour written for
    it is that reference point, coordinate by coordinate. On points with at
    least one coordinate, a label outside [0, N), such as the -1 of a search
    that found fewer than [k] points, never reaches the caller:
    [torch.gather] raises on it. *)
Theorem group_knn_gathers_indexed_points {F : Type} (faiss : flat_index F)
  (k : nat) (query points : tensor F) (unique NCHW : bool) (B N M C : nat)
  (neighbor_points : tensor F) (index_batch : tensor Z) (distance_batch : tensor F) :
  size points = layout_size NCHW B N C -> size query = layout_size NCHW B M C ->
  group_knn faiss k query points unique NCHW
  = Ok (neighbor_points, index_batch, distance_batch) ->
  size index_batch = [B; M; k] /\ size distance_batch = [B; M; k]
  /\ size neighbor_points = grouped_size NCHW B M k C
  /\ forall b m j c, b < B -> m < M -> j < k -> c < C ->
       exists n, get index_batch [b; m; j] = Some (Z.of_nat n) /\ n < N
                 /\ is_Some (get points (layout_ix NCHW b n c))
                 /\ get neighbor_points (grouped_ix NCHW b m j c)
                    = get points (layout_ix NCHW b n c).
Proof.
  intros Hp Hq Hg. unfold group_knn in Hg.
  destruct NCHW; cbn [layout_size layout_ix grouped_ix grouped_size] in *.
  - (* channel-first *)
    apply rbind_Ok in Hg as ([pt qt] & Htr & Hg).
    apply rbind_Ok in Htr as (s3 & _ & Htr).
    apply rbind_Ok in Htr as (pt' & Hpt & Htr).
    apply rbind_Ok in Htr as (qt' & Hqt & Htr).
    injection Htr as -> ->.
    destruct (transpose21_inv _ _ _ _ _ Hpt Hp) as (Hspt & Hgpt).
    destruct (transpose21_inv _ _ _ _ _ Hqt Hq) as (Hsqt & _).
    unfold size3 in Hg at 1. rewrite Hspt in Hg. cbn [rbind] in Hg.
    apply rbind_Ok in Hg as (q1 & _ & Hg).
    apply rbind_Ok in Hg as (u & _ & Hg).
    apply rbind_Ok in Hg as ([ib db] & Hknn & Hg).
    pose proof (KNN_apply_inv faiss k qt pt B N M C ib db Hspt Hsqt Hknn)
      as (HB & Hsib & Hsdb).
    apply rbind_Ok in Hg as (q2 & Hq2 & Hg).
    unfold size_at in Hq2. rewrite Hq in Hq2.
    cbn [lookup list_lookup] in Hq2. injection Hq2 as <-.
    apply rbind_Ok in Hg as (pe & Hpe & Hg).
    apply rbind_Ok in Hg as (c' & Hc' & Hg).
    unfold size_last in Hc'. rewrite Hspt in Hc'.
    cbn [last] in Hc'. injection Hc' as <-.
    apply rbind_Ok in Hg as (ie & Hie & Hg).
    apply rbind_Ok in Hg as (np & Hnp & Hg).
    apply rbind_Ok in Hg as (out & Hout & Hg).
    injection Hg as <- <- <-.
    destruct (unsqueeze1_expand_inv _ _ _ _ _ _ Hpe Hspt) as (Hspe & Hgpe).
    destruct (unsqueeze_last_expand_inv _ _ _ _ _ _ Hie Hsib) as (Hsie & Hgie).
    destruct (torch_gather2_inv _ _ _ _ _ _ _ _ _ _ _ Hnp Hspe Hsie)
      as (Hsnp & Hgnp).
    destruct (permute0312_inv _ _ _ _ _ _ Hout Hsnp) as (Hsout & Hgout).
    split; [exact Hsib|]. split; [exact Hsdb|]. split; [exact Hsout|].
    intros b m j c Hb Hm Hj Hc.
    destruct (Hgnp b m j c Hb Hm Hj Hc) as (_ & _ & _ & n & Hix & Hn & _ & Hval).
    exists n. rewrite <- (Hgie b m j c Hb Hm Hj Hc). split; [exact Hix|].
    split; [exact Hn|].
    destruct (Hgpt b n c Hb Hn Hc) as (Hsome & Heq).
    rewrite <- Heq. split; [exact Hsome|].
    rewrite (Hgout b c m j Hb Hc Hm Hj), Hval.
    apply (Hgpe b m n c Hb Hm Hn Hc).
  - (* channel-last *)
    cbn [rbind] in Hg. unfold contiguous in Hg.
    unfold size3 in Hg at 1. rewrite Hp in Hg. cbn [rbind] in Hg.
    apply rbind_Ok in Hg as (q1 & _ & Hg).
    apply rbind_Ok in Hg as (u & _ & Hg).
    apply rbind_Ok in Hg as ([ib db] & Hknn & Hg).
    pose proof (KNN_apply_inv faiss k query points B N M C ib db Hp Hq Hknn)
      as (HB & Hsib & Hsdb).
    apply rbind_Ok in Hg as (q2 & Hq2 & Hg).
    unfold size_at in Hq2. rewrite Hq in Hq2.
    cbn [lookup list_lookup] in Hq2. injection Hq2 as <-.
    apply rbind_Ok in Hg as (pe & Hpe & Hg).
    apply rbind_Ok in Hg as (c' & Hc' & Hg).
    unfold size_last in Hc'. rewrite Hp in Hc'.
    cbn [last] in Hc'. injection Hc' as <-.
    apply rbind_Ok in Hg as (ie & Hie & Hg).
    apply rbind_Ok in Hg as (np & Hnp & Hg).
    cbn [rbind] in Hg. injection Hg as <- <- <-.
    destruct (unsqueeze1_expand_inv _ _ _ _ _ _ Hpe Hp) as (Hspe & Hgpe).
    destruct (unsqueeze_last_expand_inv _ _ _ _ _ _ Hie Hsib) as (Hsie & Hgie).
    destruct (torch_gather2_inv _ _ _ _ _ _ _ _ _ _ _ Hnp Hspe Hsie)
      as (Hsnp & Hgnp).
    split; [exact Hsib|]. split; [exact Hsdb|]. split; [exact Hsnp|].
    intros b m j c Hb Hm Hj Hc.
    destruct (Hgnp b m j c Hb Hm Hj Hc)
      as (_ & HMC & _ & n & Hix & Hn & Hsome & Hval).
    exists n. rewrite <- (Hgie b m j c Hb Hm Hj Hc). split; [exact Hix|].
    split; [exact Hn|].
    rewrite <- (Hgpe b m n c Hb ltac:(lia) Hn Hc), <- Hval.
    split; [exact Hsome | reflexivity].
Qed.

Lemma group_knn_gathers_indexed_points_witness :
  exists neighbor_points index_batch distance_batch,
    group_knn exact_flat_index 2 one_query_cf duplicated_points false true
    = Ok (neighbor_points, index_batch, distance_batch)
    /\ size index_batch = [1; 1; 2] /\ size distance_batch = [1; 1; 2]
    /\ size neighbor_points = grouped_size true 1 1 2 3
    /\ forall b m j c, b < 1 -> m < 1 -> j < 2 -> c < 3 ->
         exists n, get index_batch [b; m; j] = Some (Z.of_nat n) /\ n < 3
                   /\ is_Some (get duplicated_points (layout_ix true b n c))
                   /\ get neighbor_points (grouped_ix true b m j c)
                      = get duplicated_points (layout_ix true b n c).
Proof.
  assert (Hrun : exists np ib db,
             group_knn exact_flat_index 2 one_query_cf duplicated_points false true
             = Ok (np, ib, db)).
  { eexists _, _, _. vm_compute. reflexivity. }
  destruct Hrun as (np & ib & db & Hrun). exists np, ib, db.
  split; [exact Hrun|].
  apply (group_knn_gathers_indexed_points exact_flat_index 2 one_query_cf
           duplicated_points false true 1 3 1 3 np ib db).
  - reflexivity.
  - reflexivity.
  - exact Hrun.
Defined.

(** ** [group_knn]: the sizes it checks and the sizes it needs *)

(** X7: in channel-last layout [group_knn] repeats the reference points
    [query.size(2)] times, the number of coordinates, where the gathered
    index has one row per query: with more queries than coordinates the
    call never returns a result, for any [k > 0], any number of reference
    points with at least one coordinate and any index library.  (With
    [k = 0] or without coordinates the gathered index is empty and
    [torch.gather] compares no sizes.) *)
Theorem group_knn_channel_last_needs_few_queries {F : Type} (faiss : flat_index F)
  (k : nat) (query points : tensor F) (unique : bool) (B N M C : nat) :
  size points = [B; N; C] -> size query = [B; M; C] -> C < M ->
  0 < k -> 0 < C ->
  fails (group_knn faiss k query points unique false).
Proof.
  intros Hp Hq HCM Hk HC. unfold group_knn. cbn [rbind]. unfold contiguous.
  unfold size3 at 1. rewrite Hp. cbn [rbind].
  apply fails_bind. intros q1 _. apply fails_bind. intros u _.
  apply fails_bind. intros [ib db] Hknn.
  pose proof (KNN_apply_inv faiss k query points B N M C ib db Hp Hq Hknn)
    as (HB & Hsib & Hsdb).
  apply fails_bind. intros q2 Hq2. unfold size_at in Hq2. rewrite Hq in Hq2.
  cbn [lookup list_lookup] in Hq2. injection Hq2 as <-.
  apply fails_bind. intros pe Hpe. apply fails_bind. intros c' Hc'.
  unfold size_last in Hc'. rewrite Hp in Hc'. cbn [last] in Hc'.
  injection Hc' as <-.
  apply fails_bind. intros ie Hie. apply fails_bind. intros np Hnp. exfalso.
  destruct (unsqueeze1_expand_inv _ _ _ _ _ _ Hpe Hp) as (Hspe & _).
  destruct (unsqueeze_last_expand_inv _ _ _ _ _ _ Hie Hsib) as (Hsie & _).
  destruct (torch_gather2_inv _ _ _ _ _ _ _ _ _ _ _ Hnp Hspe Hsie)
    as (_ & Hgnp).
  destruct (Hgnp 0 0 0 0 HB ltac:(lia) Hk HC) as (_ & HMC & _).
  lia.
Qed.

Lemma group_knn_channel_last_needs_few_queries_witness :
  fails (group_knn exact_flat_index 1 four_points four_points true false).
Proof.
  apply (group_knn_channel_last_needs_few_queries exact_flat_index 1 four_points
           four_points true 1 4 4 3).
  - reflexivity.
  - reflexivity.
  - lia.
  - lia.
  - lia.
Defined.

(** X8: in channel-first layout the size assertion of [group_knn] compares
    the number of reference points with [query.size(1)] of the query as it
    was passed, its number of channels: with fewer reference points than
    channels the call fails on the assertion, for any [k], any number of
    queries and any index library. *)
Theorem group_knn_channel_first_assertion {F : Type} (faiss : flat_index F)
  (k : nat) (query points : tensor F) (unique : bool) (B Bq N M C Cq : nat) :
  well_formed points -> well_formed query ->
  size points = [B; C; N] -> size query = [Bq; Cq; M] -> N < Cq ->
  group_knn faiss k query points unique true
  = Raise (AssertionError "points size must be greater or equal to query size").
Proof.
  intros Hwp Hwq Hp Hq Hlt. unfold group_knn.
  unfold size3 at 1. rewrite Hp. cbn [rbind].
  destruct (transpose21_Ok points B C N Hwp Hp) as (pt & Hpt & Hspt & _).
  destruct (transpose21_Ok query Bq Cq M Hwq Hq) as (qt & Hqt & _).
  rewrite Hpt, Hqt. cbn [rbind]. unfold size3, size_at. rewrite Hspt, Hq.
  cbn [rbind lookup list_lookup assert].
  destruct (Nat.leb_spec Cq N); [lia|]. reflexivity.
Qed.

Lemma group_knn_channel_first_assertion_witness :
  group_knn exact_flat_index 1 one_query_cf two_points_cf true true
  = Raise (AssertionError "points size must be greater or equal to query size").
Proof.
  apply (group_knn_channel_first_assertion exact_flat_index 1 one_query_cf
           two_points_cf true 1 1 2 1 3 3).
  - unfold well_formed. simpl. lia.
  - unfold well_formed. simpl. lia.
  - reflexivity.
  - reflexivity.
  - lia.
Defined.

(** ** [furthest_point_sample]: the two layouts *)

(** X9: the two layouts of [furthest_point_sample] agree. Calling it in
    channel-last layout on the transposed point set gives what the
    channel-first call gives on the point set itself: the same error, or the
    same indices and the sampled points transposed. *)
Theorem furthest_point_sample_layouts (xyz xyz_cl : tensor f32) (npoint : nat) :
  transpose21 xyz = Ok xyz_cl ->
  furthest_point_sample xyz_cl npoint false
  = do '(idx, sampled_pc) <- furthest_point_sample xyz npoint true;
    do sampled_cl <- transpose21 sampled_pc;
    Ok (idx, sampled_cl).
Proof.
  intros Ht. pose proof Ht as Ht'. unfold transpose21 in Ht'.
  destruct (size xyz) as [|a [|b [|c [|? ?]]]] eqn:Hs; try discriminate.
  destruct (tabulate_r_Ok _ _ _ Ht') as (Hs' & _).
  unfold furthest_point_sample, dim. rewrite Hs, Hs', Ht.
  cbn [length Nat.eqb assert rbind negb].
  destruct (size_at xyz_cl 2) as [d2|e]; [|reflexivity]. cbn [rbind].
  destruct (assert (d2 =? 3) "furthest sampling is implemented for 3D points")
    as [u|e]; [|reflexivity]. cbn [rbind].
  destruct (FurthestPointSampling.apply xyz_cl npoint) as [idx|e]; [|reflexivity].
  cbn [rbind].
  destruct (transpose21 xyz_cl) as [xyz_t|e]; [|reflexivity]. cbn [rbind].
  destruct (gather_points xyz_t idx) as [sampled|e]; reflexivity.
Qed.

Lemma furthest_point_sample_layouts_witness :
  transpose21 line5_cf = Ok line5
  /\ furthest_point_sample line5 3 false
     = do '(idx, sampled_pc) <- furthest_point_sample line5_cf 3 true;
       do sampled_cl <- transpose21 sampled_pc;
       Ok (idx, sampled_cl).
Proof.
  assert (Ht : transpose21 line5_cf = Ok line5) by (vm_compute; reflexivity).
  split; [exact Ht|].
  apply (furthest_point_sample_layouts line5_cf line5 3 Ht).
Defined.

(** ** [search_index_pytorch]: what it checks *)

(** X10: [search_index_pytorch] never returns a result for a query whose
    number of coordinates differs from that of the database, nor when the
    caller supplies a distance or a label buffer whose class is not one of
    the two the code names for it or whose size is not (n, k), whatever the
    index library. *)
Theorem search_index_pytorch_rejects {F : Type} (faiss : flat_index F)
  (database x : tensor F) (k : nat)
  (D : option (tensor_class * tensor F)) (I_ : option (tensor_class * tensor Z))
  (N C n d : nat) :
  size database = [N; C] -> size x = [n; d] ->
  d <> C
  \/ (exists cls buf,
        D = Some (cls, buf)
        /\ (class_in cls [torch_FloatTensor; torch_cuda_FloatTensor] = false
            \/ size buf <> [n; k]))
  \/ (exists cls buf,
        I_ = Some (cls, buf)
        /\ (class_in cls [torch_LongTensor; torch_cuda_LongTensor] = false
            \/ size buf <> [n; k])) ->
  fails (search_index_pytorch faiss database x k D I_).
Proof.
  intros Hdb Hx Hbad.
  unfold search_index_pytorch, size_last, size_at, size2. rewrite Hdb, Hx.
  cbn [last lookup list_lookup rbind assert is_contiguous].
  destruct (Nat.eqb_spec d C) as [->|Hne]; [|eexists; reflexivity].
  apply fails_bind. intros u _.
  apply fails_bind. intros bD HbD. apply fails_bind. intros bI HbI.
  exfalso.
  destruct Hbad as [Hbad | [(cls & buf & -> & Hb) | (cls & buf & -> & Hb)]].
  - congruence.
  - unfold output_buffer in HbD. destruct Hb as [Hcls|Hsz].
    + rewrite Hcls in HbD. discriminate.
    + destruct (class_in cls _); [|discriminate].
      rewrite bool_decide_eq_false_2 in HbD by exact Hsz. discriminate.
  - unfold output_buffer in HbI. destruct Hb as [Hcls|Hsz].
    + rewrite Hcls in HbI. discriminate.
    + destruct (class_in cls _); [|discriminate].
      rewrite bool_decide_eq_false_2 in HbI by exact Hsz. discriminate.
Qed.

Lemma search_index_pytorch_rejects_witness :
  fails (search_index_pytorch exact_flat_index two_rows planar_query 1 None None)
  /\ fails (search_index_pytorch exact_flat_index two_rows row_query 1
              (Some (torch_FloatTensor, short_buffer)) None)
  /\ fails (search_index_pytorch exact_flat_index two_rows row_query 2
              (Some (torch_Tensor, short_buffer)) None).
Proof.
  split; [|split].
  - apply (search_index_pytorch_rejects exact_flat_index two_rows planar_query 1
             None None 2 3 1 2).
    + reflexivity.
    + reflexivity.
    + left. lia.
  - apply (search_index_pytorch_rejects exact_flat_index two_rows row_query 1
             (Some (torch_FloatTensor, short_buffer)) None 2 3 1 3).
    + reflexivity.
    + reflexivity.
    + right. left. exists torch_FloatTensor, short_buffer.
      split; [reflexivity | right; discriminate].
  - apply (search_index_pytorch_rejects exact_flat_index two_rows row_query 2
             (Some (torch_Tensor, short_buffer)) None 2 3 1 3).
    + reflexivity.
    + reflexivity.
    + right. left. exists torch_Tensor, short_buffer.
      split; [reflexivity | left; reflexivity].
Defined.

(** ** [KNN.forward]: the batch element the search sees *)

(** X11: when [points] and [query] start at the beginning of their storage,
    the one search [KNN.forward] runs is the search of the queries of batch
    element 0 among the reference points of batch element 0; with a single
    batch element, the case of the repository's own test, that is the whole
    input. *)
Theorem KNN_forward_searches_first_element {F : Type} (faiss : flat_index F)
  (ctx : context F) (k : nat) (query points p0 q0 : tensor F) (B N M C : nat) :
  size points = [B; N; C] -> size query = [B; M; C] -> 0 < B ->
  storage_offset points = 0 -> storage_offset query = 0 ->
  select points 0 = Ok p0 -> select query 0 = Ok q0 ->
  KNN.forward faiss ctx k query points
  = do '(D, I_) <- faiss C N (elements p0) M (elements q0) k;
    Ok (repeated_batches ctx B M k D I_).
Proof.
  intros Hp Hq HB Hop Hoq Hp0 Hq0.
  rewrite (select_Ok points 0 B [N; C] Hp HB) in Hp0.
  rewrite (select_Ok query 0 B [M; C] Hq HB) in Hq0.
  injection Hp0 as <-. injection Hq0 as <-.
  unfold elements. cbn [size storage storage_offset]. rewrite Hop, Hoq.
  cbn [Nat.add Nat.mul drop numel foldr]. rewrite !Nat.mul_1_r.
  apply KNN_forward_eq; assumption.
Qed.

Lemma KNN_forward_searches_first_element_witness :
  exists p0 q0,
    select line5 0 = Ok p0 /\ select one_query 0 = Ok q0
    /\ KNN.forward exact_flat_index new_context 2 one_query line5
       = do '(D, I_) <- exact_flat_index 3 5 (elements p0) 1 (elements q0) 2;
         Ok (repeated_batches new_context 1 1 2 D I_).
Proof.
  eexists _, _. split; [reflexivity|]. split; [reflexivity|].
  apply (KNN_forward_searches_first_element exact_flat_index new_context 2
           one_query line5 _ _ 1 5 1 3);
    first [reflexivity | lia].
Defined.
